(** * Conway's Game of Life on a toroidal grid (conway.py)

    A shallow embedding of [Grid], [step], [add_pattern] and [round_out]
    together with the properties of the specification.

    Python integers are unbounded, hence [Z].  Grid objects and the lists
    they hold are mutable and shared by reference, hence an explicit heap
    of objects addressed by locations.  Exceptions are results of a small
    state-and-error monad.  The floating point values returned by
    [math.cos] and [math.sin] are finite binary fractions, hence rationals;
    the math library itself is a parameter of the development.  The text
    rendering [Grid.__str__] and the console driver are not modelled. *)

From Stdlib Require Import ZArith QArith Qabs Qround Reals Qreals Lra Lia.
From stdpp Require Import gmap list.
From Stdlib Require Ascii String DecimalString.

Close Scope R_scope.
Close Scope Q_scope.
Open Scope Z_scope.

(** ** Floating point layer: [round_out] and the trigonometric enumeration *)

Module Float.

(** [10**-10], the cut-off below which [round_out] treats a value as zero.
    In Python this is a float: the binary64 value nearest to a ten
    billionth, [7737125245533627 / 2^86], a little above it. *)
Definition tiny : Q := 7737125245533627 # 77371252455336267181195264.

(** [int(q)] on a float: truncation toward zero. *)
Definition py_int (q : Q) : Z := Z.quot (Qnum q) (Zpos (Qden q)).

(** [math.ceil]. *)
Definition ceil (q : Q) : Z := Qceiling q.

(** conway.py, [round_out]:
<<
    if abs(n) < 10**-10: n = 0
    if n != 0:
        return ceil(abs(n)) * int(n / abs(n))
    else:
        return 0
>> *)
Definition round_out (n : Q) : Z :=
  let n := if Qlt_le_dec (Qabs n) tiny then 0%Q else n in
  if negb (Qeq_bool n 0)
  then ceil (Qabs n) * py_int (n / Qabs n)
  else 0.

(** The math library.  [fcos m n] is the float the platform computes for
    [cos(n * pi / 4)], [fsin m n] the one for [sin(n * pi / 4)]. *)
Record libm := Libm { fcos : Z -> Q; fsin : Z -> Q }.

(** The exact angle [n * pi / 4]. *)
Definition angle (n : Z) : R := (IZR n * PI / 4)%R.

(** A value [v] is an acceptable result for the exact value [c]: it
    differs from [c] by less than a ten billionth, which is within the
    cut-off of [round_out], and its magnitude does not exceed one. *)
Definition close_to (v : Q) (c : R) : Prop :=
  (Rabs (Q2R v - c) < / 10 ^ 10)%R /\ (Qabs v <= 1)%Q.

Definition libm_accurate (m : libm) : Prop :=
  forall n, 0 <= n < 8 ->
    close_to (fcos m n) (cos (angle n)) /\ close_to (fsin m n) (sin (angle n)).

(** [range(n)] *)
Definition py_range (n : Z) : list Z := map Z.of_nat (seq 0 (Z.to_nat n)).

(** The offset the body of the innermost loop of [step] adds to [(i, j)]
    at iteration [n]. *)
Definition neighbour_offset (m : libm) (n : Z) : Z * Z :=
  (round_out (fcos m n), round_out (fsin m n)).

(** The enumeration of [step]: [for n in range(8)]. *)
Definition trig_offsets (m : libm) : list (Z * Z) :=
  map (neighbour_offset m) (py_range 8).

(** The fixed table of the specification (Moore neighbourhood, 45 degree
    increments). *)
Definition MOORE_OFFSETS : list (Z * Z) :=
  [(1, 0); (1, 1); (0, 1); (-1, 1); (-1, 0); (-1, -1); (0, -1); (1, -1)].

(** A table of decimal values of the kind a binary64 math library returns
    at the 8 angles, used to run the model. *)
Definition table_cos (n : Z) : Q :=
  match n with
  | 0 => 1
  | 1 => 7071067811865476 # 10000000000000000
  | 2 => 6123233995736766 # 100000000000000000000000000000000
  | 3 => -7071067811865475 # 10000000000000000
  | 4 => -1
  | 5 => -7071067811865477 # 10000000000000000
  | 6 => -18369701987210297 # 100000000000000000000000000000000
  | 7 => 7071067811865474 # 10000000000000000
  | _ => 1
  end.

Definition table_sin (n : Z) : Q :=
  match n with
  | 0 => 0
  | 1 => 7071067811865475 # 10000000000000000
  | 2 => 1
  | 3 => 7071067811865476 # 10000000000000000
  | 4 => 12246467991473532 # 100000000000000000000000000000000
  | 5 => -7071067811865475 # 10000000000000000
  | 6 => -1
  | 7 => -7071067811865477 # 10000000000000000
  | _ => 0
  end.

Definition table_libm : libm := Libm table_cos table_sin.

End Float.

Import Float.

(** ** Heap of Python objects *)

Abbreviation loc := positive (only parsing).

(** A Python [str]: its sequence of code points. *)
Abbreviation pystr := (list N) (only parsing).

(** [seq * n] on a Python sequence; a count below one gives the empty
    sequence. *)
Definition py_mul {A} (l : list A) (n : Z) : list A :=
  concat (replicate (Z.to_nat n) l).

Definition EMPTY : pystr := py_mul [0x2591%N] 2.
Definition FILLED : pystr := py_mul [0x2593%N] 2.
Definition WALL : pystr := [0x2588%N].

Definition PATTERN_GLIDER : list (Z * Z) := [(2, 2); (2, 1); (2, 0); (1, 0); (0, 1)].
Definition PATTERN_LWSS : list (Z * Z) :=
  [(1, 0); (4, 0); (0, 1); (0, 2); (4, 2); (0, 3); (1, 3); (2, 3); (3, 3)].
Definition PATTERN_ACORN : list (Z * Z) :=
  [(1, 0); (3, 1); (0, 2); (1, 2); (4, 2); (5, 2); (6, 2)].
Definition PATTERN_BLOCK : list (Z * Z) := [(0, 0); (1, 0); (0, 1); (1, 1)].
Definition PATTERN_QUEEN : list (Z * Z) :=
  [(4, 0); (2, 1); (4, 1); (1, 2); (3, 2); (0, 3); (3, 3); (1, 4); (3, 4);
   (2, 5); (4, 5); (4, 6)].

(** The attributes of a [Grid] instance; [data] refers to the outer list. *)
Record grid_obj := GridObj {
  width : Z;
  height : Z;
  data : loc;
  generation : Z
}.

(** The objects the program allocates: a row (a list of cell strings), the
    outer list (a list of references to rows) and a [Grid] instance. *)
Inductive obj :=
  | ORow (cells : list pystr)
  | ORows (rows : list loc)
  | OGrid (o : grid_obj).

Abbreviation heap := (gmap positive obj) (only parsing).

Inductive exn := ZeroDivisionError | IndexError | TypeError.

Inductive res (A : Type) :=
  | Ok (a : A)
  | Raise (e : exn).
Arguments Ok {A} a.
Arguments Raise {A} e.

(** Computations on the heap that return a value or raise.  A raised
    exception leaves the mutations done so far in place. *)
Definition M (A : Type) : Type := heap -> res A * heap.

Definition ret {A} (a : A) : M A := fun h => (Ok a, h).
Definition raise {A} (e : exn) : M A := fun h => (Raise e, h).
Definition bind {A B} (m : M A) (f : A -> M B) : M B :=
  fun h => match m h with
           | (Ok a, h') => f a h'
           | (Raise e, h') => (Raise e, h')
           end.

Declare Scope py_scope.
Delimit Scope py_scope with py.
Notation "'let!' x ':=' m 'in' k" := (bind m (fun x => k))
  (at level 10, x pattern, m at level 100, k at level 200) : py_scope.
Notation "m '>>' k" := (bind m (fun _ => k))
  (at level 90, right associativity) : py_scope.
Open Scope py_scope.

(** [for a in l: body(a)] *)
Fixpoint for_ {A} (l : list A) (body : A -> M unit) : M unit :=
  match l with
  | [] => ret tt
  | a :: l' => body a >> for_ l' body
  end.

(** A loop that updates one local variable. *)
Fixpoint for_acc {A S} (l : list A) (s : S) (body : S -> A -> M S) : M S :=
  match l with
  | [] => ret s
  | a :: l' => let! s' := body s a in for_acc l' s' body
  end.

(** [[f(a) for a in l]] *)
Fixpoint comprehension {A B} (l : list A) (f : A -> M B) : M (list B) :=
  match l with
  | [] => ret []
  | a :: l' => let! b := f a in let! bs := comprehension l' f in ret (b :: bs)
  end.

(** Allocation of a new object at a location not in use. *)
Definition alloc (o : obj) : M loc :=
  fun h => let l := fresh (dom h) in (Ok l, <[l := o]> h).

Definition load (l : loc) : M obj :=
  fun h => match h !! l with
           | Some o => (Ok o, h)
           | None => (Raise TypeError, h)
           end.

Definition store (l : loc) (o : obj) : M unit :=
  fun h => (Ok tt, <[l := o]> h).

Definition load_grid (l : loc) : M grid_obj :=
  let! o := load l in
  match o with OGrid g => ret g | _ => raise TypeError end.

Definition load_rows (l : loc) : M (list loc) :=
  let! o := load l in
  match o with ORows rs => ret rs | _ => raise TypeError end.

Definition load_row (l : loc) : M (list pystr) :=
  let! o := load l in
  match o with ORow cs => ret cs | _ => raise TypeError end.

(** [a % b] on integers: the result has the sign of [b]; a zero divisor
    raises. *)
Definition py_mod (a b : Z) : M Z :=
  if decide (b = 0) then raise ZeroDivisionError else ret (a mod b).

(** The position a list subscript [l[i]] denotes: negative subscripts count
    from the end, anything else out of range has none. *)
Definition norm_index {A} (l : list A) (i : Z) : option nat :=
  let n := Z.of_nat (length l) in
  if decide (0 <= i < n) then Some (Z.to_nat i)
  else if decide (- n <= i < 0) then Some (Z.to_nat (n + i))
  else None.

(** [l[i]] *)
Definition py_index {A} (l : list A) (i : Z) : M A :=
  match norm_index l i with
  | Some k => match l !! k with Some a => ret a | None => raise IndexError end
  | None => raise IndexError
  end.

(** ** class Grid *)

(** [Grid.__init__]:
<<
    self.data = [[EMPTY]*width for x in range(height)]
    self.generation = 0
>> *)
Definition Grid_init (width height : Z) : M loc :=
  let! rows := comprehension (py_range height)
                 (fun _ => alloc (ORow (py_mul [EMPTY] width))) in
  let! d := alloc (ORows rows) in
  alloc (OGrid (GridObj width height d 0)).

(** [t = (t[0] % self.width, t[1] % self.height)] *)
Definition wrap (g : grid_obj) (t : Z * Z) : M (Z * Z) :=
  let! x := py_mod (fst t) (width g) in
  let! y := py_mod (snd t) (height g) in
  ret (x, y).

(** [Grid.__getitem__]: [return self.data[t[1]][t[0]]] after wrapping. *)
Definition Grid_getitem (self : loc) (t : Z * Z) : M pystr :=
  let! g := load_grid self in
  let! t := wrap g t in
  let! rows := load_rows (data g) in
  let! r := py_index rows (snd t) in
  let! row := load_row r in
  py_index row (fst t).

(** [Grid.__setitem__]: [self.data[t[1]][t[0]] = value] after wrapping. *)
Definition Grid_setitem (self : loc) (t : Z * Z) (value : pystr) : M unit :=
  let! g := load_grid self in
  let! t := wrap g t in
  let! rows := load_rows (data g) in
  let! r := py_index rows (snd t) in
  let! row := load_row r in
  match norm_index row (fst t) with
  | Some k => store r (ORow (<[k := value]> row))
  | None => raise IndexError
  end.

(** ** copy.deepcopy on a Grid *)

(** The rows are copied in order; [memo] maps the rows already copied to
    their copies, so that a row listed twice is copied once. *)
Fixpoint deepcopy_rows (memo : gmap positive positive) (rs : list loc) : M (list loc) :=
  match rs with
  | [] => ret []
  | r :: rs' =>
      match memo !! r with
      | Some r' =>
          let! rest := deepcopy_rows memo rs' in ret (r' :: rest)
      | None =>
          let! cs := load_row r in
          let! r' := alloc (ORow cs) in
          let! rest := deepcopy_rows (<[r := r']> memo) rs' in
          ret (r' :: rest)
      end
  end.

Definition deepcopy (grid : loc) : M loc :=
  let! g := load_grid grid in
  let! rs := load_rows (data g) in
  let! rs' := deepcopy_rows ∅ rs in
  let! d' := alloc (ORows rs') in
  alloc (OGrid (GridObj (width g) (height g) d' (generation g))).

(** ** step and add_pattern *)

(** The innermost loop of [step]:
<<
    neighbours = 0
    for n in range(8):
        x = i + round_out(cos(n * pi / 4))
        y = j + round_out(sin(n * pi / 4))
        if grid[x, y] == FILLED:
            neighbours += 1
>> *)
Definition count_neighbours (m : libm) (grid : loc) (i j : Z) : M Z :=
  for_acc (py_range 8) 0 (fun neighbours n =>
    let x := i + round_out (fcos m n) in
    let y := j + round_out (fsin m n) in
    let! c := Grid_getitem grid (x, y) in
    ret (if decide (c = FILLED) then neighbours + 1 else neighbours)).

(** The rule applied to cell [(i, j)]:
<<
    if grid[i, j] == FILLED:
        if not 1 < neighbours < 4:
            next[i, j] = EMPTY
    elif neighbours == 3:
        next[i, j] = FILLED
>> *)
Definition apply_rule (grid next : loc) (i j neighbours : Z) : M unit :=
  let! c := Grid_getitem grid (i, j) in
  if decide (c = FILLED) then
    if negb ((1 <? neighbours) && (neighbours <? 4))
    then Grid_setitem next (i, j) EMPTY
    else ret tt
  else if neighbours =? 3 then Grid_setitem next (i, j) FILLED
  else ret tt.

(** [next.generation += 1] *)
Definition bump_generation (next : loc) : M unit :=
  let! g := load_grid next in
  store next (OGrid (GridObj (width g) (height g) (data g) (generation g + 1))).

Definition step (m : libm) (grid : loc) : M loc :=
  let! next := deepcopy grid in
  bump_generation next >>
  (let! g := load_grid grid in
   for_ (py_range (width g)) (fun i =>
     let! g := load_grid grid in
     for_ (py_range (height g)) (fun j =>
       let! neighbours := count_neighbours m grid i j in
       apply_rule grid next i j neighbours))) >>
  ret next.

(** [add_pattern]: [for t in pattern: grid[x + t[0], y + t[1]] = FILLED] *)
Definition add_pattern (grid : loc) (pattern : list (Z * Z)) (x y : Z) : M unit :=
  for_ pattern (fun t => Grid_setitem grid (x + fst t, y + snd t) FILLED).

(** ** The neighbour enumeration the specification mandates *)

(** The counting loop over the fixed table of 8 integer offset pairs, in
    place of the trigonometric enumeration:
<<
    neighbours = 0
    for (dx, dy) in MOORE_OFFSETS:
        if grid[i + dx, j + dy] == FILLED:
            neighbours += 1
>> *)
Definition count_neighbours_table (grid : loc) (i j : Z) : M Z :=
  for_acc MOORE_OFFSETS 0 (fun neighbours d =>
    let! c := Grid_getitem grid (i + fst d, j + snd d) in
    ret (if decide (c = FILLED) then neighbours + 1 else neighbours)).

(** [step] with that counting loop, everything else as in the source. *)
Definition step_table (grid : loc) : M loc :=
  let! next := deepcopy grid in
  bump_generation next >>
  (let! g := load_grid grid in
   for_ (py_range (width g)) (fun i =>
     let! g := load_grid grid in
     for_ (py_range (height g)) (fun j =>
       let! neighbours := count_neighbours_table grid i j in
       apply_rule grid next i j neighbours))) >>
  ret next.

(** ** The grid a location denotes *)

(** The mathematical content of a [Grid] instance: its attributes and the
    rows of cells, [g_cells !! y !! x] being the cell at column [x] of row
    [y]. *)
Record Grid := MkGrid {
  g_width : Z;
  g_height : Z;
  g_cells : list (list pystr);
  g_generation : Z
}.

(** Where the lists of an instance live: the outer list and the rows. *)
Record layout := Layout {
  l_data : loc;
  l_rows : list loc
}.

(** [grid_at h g L G]: in heap [h], location [g] holds a [Grid] instance
    whose storage is laid out as [L] and whose content is [G].  The rows
    are distinct objects, as [Grid.__init__] and [deepcopy] allocate
    them. *)
Record grid_at (h : heap) (g : loc) (L : layout) (G : Grid) : Prop := GridAt {
  at_obj : h !! g = Some (OGrid (GridObj (g_width G) (g_height G) (l_data L) (g_generation G)));
  at_data : h !! l_data L = Some (ORows (l_rows L));
  at_rows : Forall2 (fun r row => h !! r = Some (ORow row)) (l_rows L) (g_cells G);
  at_nodup : NoDup (l_rows L)
}.

(** The shape invariant: [height] rows of [width] columns. *)
Definition shaped (G : Grid) : Prop :=
  Z.of_nat (length (g_cells G)) = g_height G /\
  Forall (fun row => Z.of_nat (length row) = g_width G) (g_cells G).

(** A valid grid: positive dimensions and the shape invariant. *)
Definition valid (G : Grid) : Prop :=
  0 < g_width G /\ 0 < g_height G /\ shaped G.

(** The storage of a layout: every location it occupies. *)
Definition storage (g : loc) (L : layout) : list loc :=
  g :: l_data L :: l_rows L.

(** The cell that coordinate [(x, y)] denotes on the torus. *)
Definition cell_at (G : Grid) (x y : Z) : pystr :=
  default [] (g_cells G !! Z.to_nat (y mod g_height G)
              ≫= fun row => row !! Z.to_nat (x mod g_width G)).

Definition set_cell (G : Grid) (x y : Z) (v : pystr) : Grid :=
  MkGrid (g_width G) (g_height G)
    (alter (fun row => <[Z.to_nat (x mod g_width G) := v]> row)
           (Z.to_nat (y mod g_height G)) (g_cells G))
    (g_generation G).

(** A grid of the given dimensions with every cell [EMPTY]. *)
Definition blank (width height : Z) : Grid :=
  MkGrid width height
    (replicate (Z.to_nat height) (replicate (Z.to_nat width) EMPTY)) 0.

(** Every cell holds one of the two cell states. *)
Definition two_valued (G : Grid) : Prop :=
  Forall (Forall (fun c => c = EMPTY \/ c = FILLED)) (g_cells G).

(** The number of listed offsets whose cell, read from [G], is [FILLED]. *)
Definition count_at (offs : list (Z * Z)) (G : Grid) (i j : Z) : Z :=
  fold_left (fun acc d =>
               if decide (cell_at G (i + fst d) (j + snd d) = FILLED)
               then acc + 1 else acc) offs 0.

(** The Moore-neighbour count of the specification. *)
Definition moore_count (G : Grid) (i j : Z) : Z :=
  Z.of_nat (length (filter (fun d => cell_at G (i + fst d) (j + snd d) = FILLED)
                           MOORE_OFFSETS)).

Definition rule_at (G N : Grid) (i j n : Z) : Grid :=
  if decide (cell_at G i j = FILLED) then
    if negb ((1 <? n) && (n <? 4)) then set_cell N i j EMPTY else N
  else if n =? 3 then set_cell N i j FILLED
  else N.

Definition bump (G : Grid) : Grid :=
  MkGrid (g_width G) (g_height G) (g_cells G) (g_generation G + 1).

(** The content [step] computes, as the two nested loops build it from a
    copy of [G]. *)
Definition step_grid (offs : list (Z * Z)) (G : Grid) : Grid :=
  fold_left (fun N i =>
    fold_left (fun N j => rule_at G N i j (count_at offs G i j))
              (py_range (g_height G)) N)
    (py_range (g_width G)) (bump G).

Definition stamp_grid (pattern : list (Z * Z)) (x y : Z) (G : Grid) : Grid :=
  fold_left (fun N t => set_cell N (x + fst t) (y + snd t) FILLED) pattern G.

Definition with_generation (G : Grid) (generation : Z) : Grid :=
  MkGrid (g_width G) (g_height G) (g_cells G) generation.

(** What [step] leaves in cell [(i, j)] of the result, given the input. *)
Definition next_cell (offs : list (Z * Z)) (G : Grid) (i j : Z) : pystr :=
  let c := cell_at G i j in
  let n := count_at offs G i j in
  if decide (c = FILLED) then (if negb ((1 <? n) && (n <? 4)) then EMPTY else c)
  else if n =? 3 then FILLED else c.

(** The cells visited by the two loops of [step]. *)
Definition visited (G : Grid) : list (Z * Z) :=
  flat_map (fun i => map (pair i) (py_range (g_height G))) (py_range (g_width G)).

(** The state of the copy while the loops run: the cells seen so far hold
    their next state, the others still hold the input. *)
Record progress (offs : list (Z * Z)) (G : Grid) (seen : list (Z * Z)) (N : Grid) : Prop := {
  pr_valid : valid N;
  pr_width : g_width N = g_width G;
  pr_height : g_height N = g_height G;
  pr_generation : g_generation N = g_generation G + 1;
  pr_cells : forall a b, 0 <= a < g_width G -> 0 <= b < g_height G ->
      cell_at N a b = if decide ((a, b) ∈ seen) then next_cell offs G a b else cell_at G a b
}.

(** Row objects holding the given rows. *)
Definition rows_at (h : heap) (rs : list loc) (rows : list (list pystr)) : Prop :=
  Forall2 (fun r row => h !! r = Some (ORow row)) rs rows.

(** A write through a grid laid out as [L] changes at most one of its rows. *)
Definition touches (L : layout) (h h' : heap) : Prop :=
  h' = h \/ exists r o, r ∈ l_rows L /\ h' = <[r := o]> h.

(** ** Sample runs *)

Definition BLINKER_ROW : list (Z * Z) := [(1, 2); (2, 2); (3, 2)].
Definition BLINKER_COLUMN : list (Z * Z) := [(2, 1); (2, 2); (2, 3)].

(** The 5 by 5 grid whose only [FILLED] cells are those of [pattern]. *)
Definition pattern_grid (pattern : list (Z * Z)) (generation : Z) : Grid :=
  with_generation (stamp_grid pattern 0 0 (blank 5 5)) generation.

(** The heap after [grid = Grid(5, 5); add_pattern(grid, BLINKER_ROW, 0, 0)]
    run from the empty heap; the instance is at location 7, its outer list
    at 6 and its rows at 1 to 5. *)
Definition blinker_heap : heap :=
  snd ((let! g := Grid_init 5 5 in add_pattern g BLINKER_ROW 0 0) ∅).
Definition blinker_loc : loc := 7%positive.
Definition blinker_layout : layout :=
  Layout 6%positive [1%positive; 2%positive; 3%positive; 4%positive; 5%positive].

(** The heap after [grid = Grid(1, 1); grid[0, 0] = FILLED]. *)
Definition single_heap : heap :=
  snd ((let! g := Grid_init 1 1 in Grid_setitem g (0, 0) FILLED) ∅).
Definition single_loc : loc := 3%positive.
Definition single_layout : layout := Layout 2%positive [1%positive].

(** ** Rendering: [Grid.__str__] *)

(** The code points of an ASCII literal. *)
Definition text (s : String.string) : pystr :=
  map Ascii.N_of_ascii (String.list_ascii_of_string s).

(** The string literals of the program. *)
Module Literal.
Import Stdlib.Strings.String.
Definition FOOTER : String.string := "  GENERATION: "%string.
Definition ERROR : String.string := "Please input an integer:"%string.
Definition WIDTH : String.string := "Width of grid:"%string.
Definition HEIGHT : String.string := "Height of grid:"%string.
Definition TIMESTEP : String.string := "Time-step (ms):"%string.
End Literal.

Definition NEWLINE : pystr := [10%N].

(** [str(z)] on an integer: its decimal digits, with a leading minus sign
    when negative. *)
Definition py_str_int (z : Z) : pystr :=
  text (DecimalString.NilZero.string_of_int (Z.to_int z)).

(** [Grid.__str__]:
<<
    out = WALL * (self.width * len(EMPTY) + 4) + "\n"
    for row in self.data:
        out += WALL * 2
        for item in row:
            out += str(item)
        out += WALL * 2 + "\n"
    out += WALL * (self.width * len(EMPTY) + 4)
    return out + "\n\n  GENERATION: " + str(self.generation)
>>
    The cells are strings, on which [str] is the identity. *)
Definition Grid_str (self : loc) : M pystr :=
  let! g := load_grid self in
  let out := py_mul WALL (width g * Z.of_nat (length EMPTY) + 4) ++ NEWLINE in
  let! rows := load_rows (data g) in
  let! out := for_acc rows out (fun out r =>
    let! row := load_row r in
    let out := out ++ py_mul WALL 2 in
    let out := fold_left (fun out item => out ++ item) row out in
    ret (out ++ (py_mul WALL 2 ++ NEWLINE))) in
  let! g := load_grid self in
  let out := out ++ py_mul WALL (width g * Z.of_nat (length EMPTY) + 4) in
  let! g := load_grid self in
  ret ((out ++ (NEWLINE ++ NEWLINE ++ text Literal.FOOTER)) ++ py_str_int (generation g)).

(** The line of the rendering that shows one row. *)
Definition render_row (row : list pystr) : pystr :=
  py_mul WALL 2 ++ concat row ++ py_mul WALL 2 ++ NEWLINE.

(** The top and bottom rule. *)
Definition border (G : Grid) : pystr := py_mul WALL (g_width G * 2 + 4).

(** The text [Grid.__str__] returns for the content [G]. *)
Definition render (G : Grid) : pystr :=
  border G ++ NEWLINE ++ concat (map render_row (g_cells G)) ++ border G ++
  NEWLINE ++ NEWLINE ++ text Literal.FOOTER ++ py_str_int (g_generation G).

(** ** The console: [int_input] and [get_settings] *)

(** Standard input as the lines still to be read, standard output as the
    text written so far. *)
Record console := Console {
  stdin : list pystr;
  stdout : pystr
}.

Record Settings := MkSettings {
  s_width : Z;
  s_height : Z;
  s_timestep : Z
}.

Definition SPACE : pystr := [32%N].

(** The default of the [error] argument of [int_input]. *)
Definition DEFAULT_ERROR : pystr := text Literal.ERROR.

Section Console.

(** [int(s)] on a line of input: [None] when it raises. *)
Variable int_of_str : pystr -> option Z.

(** The loop of [int_input]:
<<
    while True:
        try:
            x = int(input())
            return x
        except:
            print(error, end=" ")
>>
    When the input is exhausted [input()] raises, the handler prints and
    the loop goes on for ever: the function does not return, which is
    [None] here. *)
Fixpoint int_input_loop (error : pystr) (lines : list pystr) (out : pystr)
    : option (Z * console) :=
  match lines with
  | [] => None
  | line :: rest =>
      match int_of_str line with
      | Some x => Some (x, Console rest out)
      | None => int_input_loop error rest (out ++ error ++ SPACE)
      end
  end.

(** [int_input(prompt, error)]: [print(prompt, end=" ")], then the loop. *)
Definition int_input (prompt error : pystr) (c : console) : option (Z * console) :=
  int_input_loop error (stdin c) (stdout c ++ prompt ++ SPACE).

(** [get_settings]: the three prompts of [Settings.__init__], in order. *)
Definition get_settings (c : console) : option (Settings * console) :=
  match int_input (text Literal.WIDTH) DEFAULT_ERROR c with
  | None => None
  | Some (w, c1) =>
      match int_input (text Literal.HEIGHT) DEFAULT_ERROR c1 with
      | None => None
      | Some (h, c2) =>
          match int_input (text Literal.TIMESTEP) DEFAULT_ERROR c2 with
          | None => None
          | Some (t, c3) => Some (MkSettings w h t, c3)
          end
      end
  end.

End Console.

(** ** The driver: seeding and the simulation loop *)

(** The seeding of the main program:
<<
    grid = Grid(settings.width, settings.height)
    add_pattern(grid, PATTERN_BLOCK, 5, 7)
    add_pattern(grid, PATTERN_BLOCK, 25, 7)
    add_pattern(grid, PATTERN_QUEEN, 10, 4)
>> *)
Definition main_seed (width height : Z) : M loc :=
  let! grid := Grid_init width height in
  add_pattern grid PATTERN_BLOCK 5 7 >>
  add_pattern grid PATTERN_BLOCK 25 7 >>
  add_pattern grid PATTERN_QUEEN 10 4 >>
  ret grid.

Section Driver.

Variable m : libm.

(** [os.system("cls")] and [sleep(settings.timestep / 1000)]: they act on
    the terminal and on the clock, which are outside the heap. *)
Variable clear_screen : M unit.
Variable sleep_ms : Z -> M unit.

(** The first [n] iterations of the loop of the main program, with the
    texts handed to [print] so far:
<<
    while True:
        os.system("cls")
        print(grid)
        sleep(settings.timestep / 1000)
        grid = step(grid)
>> *)
Fixpoint main_loop (n : nat) (timestep : Z) (grid : loc) (printed : list pystr)
    : M (list pystr * loc) :=
  match n with
  | O => ret (printed, grid)
  | S n' =>
      clear_screen >>
      let! shown := Grid_str grid in
      sleep_ms timestep >>
      let! next := step m grid in
      main_loop n' timestep next (printed ++ [shown])
  end.

End Driver.

(** The content after [n] generations. *)
Fixpoint generations (offs : list (Z * Z)) (n : nat) (G : Grid) : Grid :=
  match n with
  | O => G
  | S n' => generations offs n' (step_grid offs G)
  end.

(** The frames the loop prints in its first [n] iterations. *)
Fixpoint frames (offs : list (Z * Z)) (n : nat) (G : Grid) : list pystr :=
  match n with
  | O => []
  | S n' => render G :: frames offs n' (step_grid offs G)
  end.

(** Coordinate [(a, b)] is one of the cells a pattern anchored at [(x, y)]
    covers on the torus of [G]. *)
Definition covers (G : Grid) (pattern : list (Z * Z)) (x y a b : Z) : Prop :=
  Exists (fun t => (x + fst t) mod g_width G = a mod g_width G /\
                   (y + snd t) mod g_height G = b mod g_height G) pattern.

(** ** Auxiliary notions *)

(** Outside the rows of [L] the two heaps agree. *)
Definition same_outside (L : layout) (h h' : heap) : Prop :=
  forall l, l ∉ l_rows L -> h' !! l = h !! l.

(** The exception an access raises on a grid constructed with the given
    dimensions, one of which is not positive. *)
Definition access_error (w hh : Z) : exn :=
  if decide (w = 0 \/ hh = 0) then ZeroDivisionError else IndexError.

(** A reader of decimal digits, to run the console model. *)
Definition digits_only (line : pystr) : option Z :=
  if forallb (fun c => (48 <=? c)%N && (c <=? 57)%N) line && negb (Nat.eqb (length line) 0)
  then Some (fold_left (fun acc c => 10 * acc + Z.of_N (c - 48)) line 0)
  else None.

(** * Proofs *)

(** ** [round_out] on accurate trigonometric values *)

Lemma py_int_one q : (q == 1)%Q -> py_int q = 1.
Proof.
  unfold Qeq, py_int. simpl. intros H. rewrite Z.mul_1_r in H. rewrite H.
  apply Z.quot_same. discriminate.
Qed.

Lemma py_int_minus_one q : (q == -1)%Q -> py_int q = -1.
Proof.
  unfold Qeq, py_int. simpl. intros H. rewrite Z.mul_1_r in H. rewrite H.
  change (Z.neg (Qden q)) with (- Z.pos (Qden q)).
  rewrite Z.quot_opp_l by discriminate. rewrite Z.quot_same by discriminate. reflexivity.
Qed.

Lemma ceil_unit v : (0 < v)%Q -> (v <= 1)%Q -> ceil v = 1.
Proof.
  intros Hpos Hle. unfold ceil.
  pose proof (Qle_ceiling v) as Hup. pose proof (Qceiling_lt v) as Hlo.
  assert (0 < Qceiling v) as H1.
  { rewrite Zlt_Qlt. eapply Qlt_le_trans; eauto. }
  assert (Qceiling v - 1 < 1) as H2.
  { rewrite Zlt_Qlt. eapply Qlt_le_trans; eauto. }
  lia.
Qed.

Lemma round_out_zero v : (Qabs v < tiny)%Q -> round_out v = 0.
Proof.
  intros H. unfold round_out. destruct (Qlt_le_dec (Qabs v) tiny) as [_|Hge].
  - reflexivity.
  - exfalso. eapply Qlt_not_le; eauto.
Qed.

Lemma round_out_pos v : (tiny <= v)%Q -> (v <= 1)%Q -> round_out v = 1.
Proof.
  intros Hlo Hhi.
  assert (0 < v)%Q as Hpos by (eapply Qlt_le_trans; [|exact Hlo]; reflexivity).
  assert (Qabs v == v)%Q as Habs by (apply Qabs_pos; apply Qlt_le_weak; exact Hpos).
  unfold round_out. destruct (Qlt_le_dec (Qabs v) tiny) as [Hlt|_].
  { exfalso. rewrite Habs in Hlt. eapply Qlt_not_le; eauto. }
  destruct (Qeq_bool v 0) eqn:E.
  { apply Qeq_bool_iff in E. rewrite E in Hpos. discriminate. }
  simpl. rewrite ceil_unit.
  - rewrite py_int_one; [reflexivity|]. rewrite Habs. field. intros E0. rewrite E0 in Hpos. discriminate.
  - rewrite Habs. exact Hpos.
  - rewrite Habs. exact Hhi.
Qed.

Lemma round_out_neg v : (v <= - tiny)%Q -> (-1 <= v)%Q -> round_out v = -1.
Proof.
  intros Hhi Hlo.
  assert (v < 0)%Q as Hneg by (eapply Qle_lt_trans; [exact Hhi|]; reflexivity).
  assert (Qabs v == - v)%Q as Habs by (apply Qabs_neg; apply Qlt_le_weak; exact Hneg).
  unfold round_out. destruct (Qlt_le_dec (Qabs v) tiny) as [Hlt|_].
  { exfalso. rewrite Habs in Hlt. apply Qopp_le_compat in Hhi. rewrite Qopp_involutive in Hhi.
    eapply Qlt_not_le; eauto. }
  destruct (Qeq_bool v 0) eqn:E.
  { apply Qeq_bool_iff in E. rewrite E in Hneg. discriminate. }
  simpl. rewrite ceil_unit.
  - rewrite py_int_minus_one; [reflexivity|]. rewrite Habs. field. intros E0. rewrite E0 in Hneg. discriminate.
  - rewrite Habs. apply Qopp_lt_compat in Hneg. exact Hneg.
  - rewrite Habs. apply Qopp_le_compat in Hlo. exact Hlo.
Qed.

Lemma Q2R_tiny : (/ 10 ^ 10 <= Q2R tiny <= / 10 ^ 9)%R.
Proof. unfold tiny, Q2R. simpl. lra. Qed.

Lemma close_zero v c : close_to v c -> c = 0%R -> round_out v = 0.
Proof.
  intros [Hc _] ->. apply round_out_zero. apply Qabs_Qlt_condition.
  rewrite Rminus_0_r in Hc. apply Rabs_def2 in Hc. destruct Hc as [Hhi Hlo].
  pose proof Q2R_tiny as [Ht _].
  split; apply Rlt_Qlt; rewrite ?Q2R_opp; lra.
Qed.

Lemma close_pos v c : close_to v c -> (1 / 2 <= c)%R -> round_out v = 1.
Proof.
  intros [Hc Hb] Hge. apply Qabs_Qle_condition in Hb. destruct Hb as [_ Hb].
  apply round_out_pos; [|exact Hb].
  apply Rabs_def2 in Hc. destruct Hc as [_ Hlo].
  apply Rle_Qle. pose proof Q2R_tiny as [_ Ht]. lra.
Qed.

Lemma close_neg v c : close_to v c -> (c <= - 1 / 2)%R -> round_out v = -1.
Proof.
  intros [Hc Hb] Hle. apply Qabs_Qle_condition in Hb. destruct Hb as [Hb _].
  apply round_out_neg; [|exact Hb].
  apply Rabs_def2 in Hc. destruct Hc as [Hhi _].
  apply Rle_Qle. rewrite Q2R_opp. pose proof Q2R_tiny as [_ Ht]. lra.
Qed.

Lemma inv_sqrt2_bounds : (1 / 2 <= 1 / sqrt 2 <= 1)%R /\ (1 / sqrt 2 * (1 / sqrt 2) = 1 / 2)%R.
Proof.
  assert (0 < sqrt 2)%R as Hpos by (apply sqrt_lt_R0; lra).
  assert (sqrt 2 * sqrt 2 = 2)%R as Hsq by (apply sqrt_sqrt; lra).
  assert (1 <= sqrt 2 <= 2)%R as [H1 H2] by (split; nra).
  split; [split|].
  - apply Rmult_le_reg_r with (sqrt 2); [exact Hpos|]. field_simplify; [lra|lra].
  - apply Rmult_le_reg_r with (sqrt 2); [exact Hpos|]. field_simplify; [lra|lra].
  - field_simplify; [|lra]. rewrite <- Hsq at 2. simpl. field. lra.
Qed.

Lemma cos_angle :
  cos (angle 0) = 1%R /\ cos (angle 1) = (1 / sqrt 2)%R /\ cos (angle 2) = 0%R /\
  cos (angle 3) = (- 1 / sqrt 2)%R /\ cos (angle 4) = (-1)%R /\
  cos (angle 5) = (- 1 / sqrt 2)%R /\ cos (angle 6) = 0%R /\ cos (angle 7) = (1 / sqrt 2)%R.
Proof.
  unfold angle. repeat split.
  - replace (0 * PI / 4)%R with 0%R by lra. apply cos_0.
  - replace (1 * PI / 4)%R with (PI / 4)%R by lra. apply cos_PI4.
  - replace (2 * PI / 4)%R with (PI / 2)%R by lra. apply cos_PI2.
  - replace (3 * PI / 4)%R with (3 * (PI / 4))%R by lra. apply cos_3PI4.
  - replace (4 * PI / 4)%R with PI by lra. apply cos_PI.
  - replace (5 * PI / 4)%R with (5 * (PI / 4))%R by lra. apply cos_5PI4.
  - replace (6 * PI / 4)%R with (3 * (PI / 2))%R by lra. apply cos_3PI2.
  - replace (7 * PI / 4)%R with (- (PI / 4) + 2 * INR 1 * PI)%R by (simpl; lra).
    rewrite cos_period, cos_neg. apply cos_PI4.
Qed.

Lemma sin_angle :
  sin (angle 0) = 0%R /\ sin (angle 1) = (1 / sqrt 2)%R /\ sin (angle 2) = 1%R /\
  sin (angle 3) = (1 / sqrt 2)%R /\ sin (angle 4) = 0%R /\
  sin (angle 5) = (- 1 / sqrt 2)%R /\ sin (angle 6) = (-1)%R /\ sin (angle 7) = (- 1 / sqrt 2)%R.
Proof.
  unfold angle. repeat split.
  - replace (0 * PI / 4)%R with 0%R by lra. apply sin_0.
  - replace (1 * PI / 4)%R with (PI / 4)%R by lra. apply sin_PI4.
  - replace (2 * PI / 4)%R with (PI / 2)%R by lra. apply sin_PI2.
  - replace (3 * PI / 4)%R with (3 * (PI / 4))%R by lra. apply sin_3PI4.
  - replace (4 * PI / 4)%R with PI by lra. apply sin_PI.
  - replace (5 * PI / 4)%R with (5 * (PI / 4))%R by lra. apply sin_5PI4.
  - replace (6 * PI / 4)%R with (3 * (PI / 2))%R by lra. apply sin_3PI2.
  - replace (7 * PI / 4)%R with (- (PI / 4) + 2 * INR 1 * PI)%R by (simpl; lra).
    rewrite sin_period, sin_neg, sin_PI4. lra.
Qed.

Lemma trig_offsets_table m : libm_accurate m -> trig_offsets m = MOORE_OFFSETS.
Proof.
  intros Hm. unfold trig_offsets, MOORE_OFFSETS.
  change (py_range 8) with [0; 1; 2; 3; 4; 5; 6; 7]. cbn [map]. unfold neighbour_offset.
  destruct cos_angle as (c0 & c1 & c2 & c3 & c4 & c5 & c6 & c7).
  destruct sin_angle as (s0 & s1 & s2 & s3 & s4 & s5 & s6 & s7).
  destruct inv_sqrt2_bounds as [[Hlo Hhi] _].
  assert (- 1 / sqrt 2 <= - 1 / 2)%R as Hn by lra.
  destruct (Hm 0 ltac:(lia)) as [C0 S0]. destruct (Hm 1 ltac:(lia)) as [C1 S1].
  destruct (Hm 2 ltac:(lia)) as [C2 S2]. destruct (Hm 3 ltac:(lia)) as [C3 S3].
  destruct (Hm 4 ltac:(lia)) as [C4 S4]. destruct (Hm 5 ltac:(lia)) as [C5 S5].
  destruct (Hm 6 ltac:(lia)) as [C6 S6]. destruct (Hm 7 ltac:(lia)) as [C7 S7].
  rewrite (close_pos _ _ C0) by lra. rewrite (close_zero _ _ S0 s0).
  rewrite (close_pos _ _ C1) by lra. rewrite (close_pos _ _ S1) by lra.
  rewrite (close_zero _ _ C2 c2). rewrite (close_pos _ _ S2) by lra.
  rewrite (close_neg _ _ C3) by lra. rewrite (close_pos _ _ S3) by lra.
  rewrite (close_neg _ _ C4) by lra. rewrite (close_zero _ _ S4 s4).
  rewrite (close_neg _ _ C5) by lra. rewrite (close_neg _ _ S5) by lra.
  rewrite (close_zero _ _ C6 c6). rewrite (close_neg _ _ S6) by lra.
  rewrite (close_pos _ _ C7) by lra. rewrite (close_neg _ _ S7) by lra.
  reflexivity.
Qed.

Lemma inv_sqrt2_digits : (7071067811 / 10000000000 < 1 / sqrt 2 < 7071067812 / 10000000000)%R.
Proof.
  destruct inv_sqrt2_bounds as [[Hlo Hhi] Hsq].
  set (s := (1 / sqrt 2)%R) in *. split; nra.
Qed.

Lemma table_libm_accurate : libm_accurate table_libm.
Proof.
  intros n Hn.
  destruct cos_angle as (c0 & c1 & c2 & c3 & c4 & c5 & c6 & c7).
  destruct sin_angle as (s0 & s1 & s2 & s3 & s4 & s5 & s6 & s7).
  pose proof inv_sqrt2_digits as [Ha Hb].
  assert (- 1 / sqrt 2 = - (1 / sqrt 2))%R as Hopp by lra.
  assert (n = 0 \/ n = 1 \/ n = 2 \/ n = 3 \/ n = 4 \/ n = 5 \/ n = 6 \/ n = 7)
    as [->|[->|[->|[->|[->|[->|[->| ->]]]]]]] by lia;
  unfold close_to; cbn [table_libm fcos fsin table_cos table_sin];
  rewrite ?c0, ?c1, ?c2, ?c3, ?c4, ?c5, ?c6, ?c7, ?s0, ?s1, ?s2, ?s3, ?s4, ?s5, ?s6, ?s7, ?Hopp;
  (split; (split; [apply Rabs_def1; unfold Q2R; simpl; lra | discriminate])).
Qed.

(** ** The monad *)

Section Monad.
Context {A B : Type}.

Lemma bind_ok (m : M A) (f : A -> M B) h a h' :
  m h = (Ok a, h') -> bind m f h = f a h'.
Proof. intros E. unfold bind. rewrite E. reflexivity. Qed.

End Monad.

(** A loop whose body refines a pure function on an abstract state. *)
Lemma for_fold {A S} (R : S -> gmap positive obj -> Prop) (f : S -> A -> S)
    (l : list A) (body : A -> M unit) :
  (forall s a h, a ∈ l -> R s h -> exists h', body a h = (Ok tt, h') /\ R (f s a) h') ->
  forall s h, R s h -> exists h', for_ l body h = (Ok tt, h') /\ R (fold_left f l s) h'.
Proof.
  induction l as [|a l IH]; intros Hbody s h HR.
  - exists h. split; [reflexivity|exact HR].
  - destruct (Hbody s a h) as (h1 & E1 & HR1); [left|exact HR|].
    destruct IH with (s := f s a) (h := h1) as (h2 & E2 & HR2).
    + intros s' a' h' Hin. apply Hbody. right. exact Hin.
    + exact HR1.
    + exists h2. split; [|exact HR2]. cbn [for_]. rewrite (bind_ok _ _ _ _ _ E1). exact E2.
Qed.

(** A loop that only reads the heap. *)
Lemma for_acc_fold {A S} (f : S -> A -> S) (l : list A) (body : S -> A -> M S) h :
  (forall s a, a ∈ l -> body s a h = (Ok (f s a), h)) ->
  forall s, for_acc l s body h = (Ok (fold_left f l s), h).
Proof.
  induction l as [|a l IH]; intros Hbody s.
  - reflexivity.
  - cbn [for_acc fold_left]. rewrite (bind_ok _ _ _ _ _ (Hbody s a ltac:(left))).
    apply IH. intros s' a' Hin. apply Hbody. right. exact Hin.
Qed.

(** ** Heap primitives *)

Lemma load_grid_ok (h : gmap positive obj) l g :
  h !! l = Some (OGrid g) -> load_grid l h = (Ok g, h).
Proof. intros E. unfold load_grid, bind, load. rewrite E. reflexivity. Qed.

Lemma load_rows_ok (h : gmap positive obj) l rs :
  h !! l = Some (ORows rs) -> load_rows l h = (Ok rs, h).
Proof. intros E. unfold load_rows, bind, load. rewrite E. reflexivity. Qed.

Lemma load_row_ok (h : gmap positive obj) l cs :
  h !! l = Some (ORow cs) -> load_row l h = (Ok cs, h).
Proof. intros E. unfold load_row, bind, load. rewrite E. reflexivity. Qed.

Lemma alloc_fresh (h : gmap positive obj) o :
  exists l, alloc o h = (Ok l, <[l := o]> h) /\ h !! l = None.
Proof.
  exists (fresh (dom h)). split; [reflexivity|].
  apply not_elem_of_dom. apply is_fresh.
Qed.

Lemma py_mod_ok a b (h : gmap positive obj) :
  b <> 0 -> py_mod a b h = (Ok (a mod b), h).
Proof. intros Hb. unfold py_mod. destruct (decide (b = 0)); [contradiction|reflexivity]. Qed.

Lemma norm_index_ok {A} (l : list A) i :
  0 <= i < Z.of_nat (length l) -> norm_index l i = Some (Z.to_nat i).
Proof. intros Hi. unfold norm_index. destruct (decide _); [reflexivity|contradiction]. Qed.

Lemma py_index_ok {A} (l : list A) i a (h : gmap positive obj) :
  0 <= i -> l !! Z.to_nat i = Some a -> py_index l i h = (Ok a, h).
Proof.
  intros Hi E. unfold py_index. rewrite norm_index_ok, E; [reflexivity|].
  apply lookup_lt_Some in E. lia.
Qed.

(** ** Wrapped coordinates *)

Lemma wrap_range a b : 0 < b -> 0 <= a mod b < b.
Proof. intros Hb. apply Z.mod_pos_bound. exact Hb. Qed.

Lemma wrap_ok g t (h : gmap positive obj) :
  0 < width g -> 0 < height g ->
  wrap g t h = (Ok (fst t mod width g, snd t mod height g), h).
Proof.
  intros Hw Hh. unfold wrap.
  assert (width g <> 0) as Hw0 by lia. assert (height g <> 0) as Hh0 by lia.
  rewrite (bind_ok _ _ _ _ _ (py_mod_ok _ _ _ Hw0)).
  rewrite (bind_ok _ _ _ _ _ (py_mod_ok _ _ _ Hh0)). reflexivity.
Qed.

(** The row and the cell a coordinate of a valid grid denotes exist. *)
Lemma valid_row G y :
  valid G -> exists row, g_cells G !! Z.to_nat (y mod g_height G) = Some row /\
                         Z.of_nat (length row) = g_width G.
Proof.
  intros (Hw & Hh & Hlen & Hrows).
  pose proof (wrap_range y _ Hh) as Hy.
  destruct (lookup_lt_is_Some_2 (g_cells G) (Z.to_nat (y mod g_height G))) as [row E].
  { revert Hy. generalize (y mod g_height G). intros; lia. }
  exists row. split; [exact E|].
  eapply Forall_lookup_1 in Hrows; [|exact E]. exact Hrows.
Qed.

Lemma valid_cell G x y :
  valid G -> exists row,
    g_cells G !! Z.to_nat (y mod g_height G) = Some row /\
    Z.of_nat (length row) = g_width G /\
    row !! Z.to_nat (x mod g_width G) = Some (cell_at G x y).
Proof.
  intros HG. destruct (valid_row G y HG) as (row & E & Hlen).
  exists row. split; [exact E|]. split; [exact Hlen|].
  destruct HG as (Hw & _).
  pose proof (wrap_range x _ Hw) as Hx.
  destruct (lookup_lt_is_Some_2 row (Z.to_nat (x mod g_width G))) as [c Ec].
  { revert Hx. generalize (x mod g_width G). intros; lia. }
  unfold cell_at. rewrite E. simpl. rewrite Ec. reflexivity.
Qed.

(** ** Reading and writing a cell *)

Lemma getitem_spec (h : gmap positive obj) g L G x y :
  grid_at h g L G -> valid G ->
  Grid_getitem g (x, y) h = (Ok (cell_at G x y), h).
Proof.
  intros [Hobj Hdata Hrows _] HG.
  destruct (valid_cell G x y HG) as (row & Erow & Hlen & Ecell).
  destruct HG as (Hw & Hh & _).
  destruct (Forall2_lookup_r _ _ _ _ _ Hrows Erow) as (r & Er & Hr).
  unfold Grid_getitem.
  rewrite (bind_ok _ _ _ _ _ (load_grid_ok _ _ _ Hobj)).
  rewrite (bind_ok _ _ _ _ _
             (wrap_ok (GridObj _ _ _ _) (x, y) h Hw Hh)). cbn [fst snd data width height].
  rewrite (bind_ok _ _ _ _ _ (load_rows_ok _ _ _ Hdata)).
  pose proof (wrap_range y _ Hh) as Hy. pose proof (wrap_range x _ Hw) as Hx.
  rewrite (bind_ok _ _ _ _ _ (py_index_ok _ _ _ _ (proj1 Hy) Er)).
  rewrite (bind_ok _ _ _ _ _ (load_row_ok _ _ _ Hr)).
  apply py_index_ok; [exact (proj1 Hx)|exact Ecell].
Qed.

Lemma grid_at_mono (h h' : gmap positive obj) g L G :
  h ⊆ h' -> grid_at h g L G -> grid_at h' g L G.
Proof.
  intros Hsub [Hobj Hdata Hrows Hnd]. split.
  - exact (lookup_weaken _ _ _ _ Hobj Hsub).
  - exact (lookup_weaken _ _ _ _ Hdata Hsub).
  - eapply Forall2_impl; [exact Hrows|]. intros r row E. cbn beta.
    exact (lookup_weaken _ _ _ _ E Hsub).
  - exact Hnd.
Qed.

Lemma set_cell_shaped G x y v : shaped G -> shaped (set_cell G x y v).
Proof.
  intros (Hlen & Hrows). unfold shaped, set_cell. cbn. split.
  - rewrite length_alter. exact Hlen.
  - apply Forall_alter; [exact Hrows|]. intros row _ E. rewrite length_insert. exact E.
Qed.

Lemma set_cell_valid G x y v : valid G -> valid (set_cell G x y v).
Proof.
  intros (Hw & Hh & Hs). split; [exact Hw|]. split; [exact Hh|].
  apply set_cell_shaped. exact Hs.
Qed.

Lemma setitem_spec (h : gmap positive obj) g L G x y v :
  grid_at h g L G -> valid G ->
  exists r row,
    l_rows L !! Z.to_nat (y mod g_height G) = Some r /\
    g_cells G !! Z.to_nat (y mod g_height G) = Some row /\
    h !! r = Some (ORow row) /\
    Grid_setitem g (x, y) v h =
      (Ok tt, <[r := ORow (<[Z.to_nat (x mod g_width G) := v]> row)]> h) /\
    grid_at (<[r := ORow (<[Z.to_nat (x mod g_width G) := v]> row)]> h) g L
            (set_cell G x y v).
Proof.
  intros [Hobj Hdata Hrows Hnd] HG.
  destruct (valid_cell G x y HG) as (row & Erow & Hlen & Ecell).
  destruct HG as (Hw & Hh & _).
  destruct (Forall2_lookup_r _ _ _ _ _ Hrows Erow) as (r & Er & Hr).
  pose proof (wrap_range y _ Hh) as Hy. pose proof (wrap_range x _ Hw) as Hx.
  exists r, row. split; [exact Er|]. split; [exact Erow|]. split; [exact Hr|]. split.
  - unfold Grid_setitem.
    rewrite (bind_ok _ _ _ _ _ (load_grid_ok _ _ _ Hobj)).
    rewrite (bind_ok _ _ _ _ _
               (wrap_ok (GridObj _ _ _ _) (x, y) h Hw Hh)). cbn [fst snd data width height].
    rewrite (bind_ok _ _ _ _ _ (load_rows_ok _ _ _ Hdata)).
    rewrite (bind_ok _ _ _ _ _ (py_index_ok _ _ _ _ (proj1 Hy) Er)).
    rewrite (bind_ok _ _ _ _ _ (load_row_ok _ _ _ Hr)).
    rewrite norm_index_ok; [reflexivity|]. rewrite Hlen. exact Hx.
  - split; cbn [set_cell g_width g_height g_cells g_generation].
    + rewrite lookup_insert_ne; [exact Hobj|]. intros ->. rewrite Hr in Hobj. discriminate.
    + rewrite lookup_insert_ne; [exact Hdata|]. intros ->. rewrite Hr in Hdata. discriminate.
    + apply Forall2_same_length_lookup. split.
      * rewrite length_alter. eapply Forall2_length; eauto.
      * intros i r' row' Ei Ei'.
        destruct (decide (i = Z.to_nat (y mod g_height G))) as [->|Hne].
        -- rewrite Er in Ei. inversion Ei; subst r'.
           rewrite list_lookup_alter_eq, Erow in Ei'. cbn in Ei'. inversion Ei'; subst row'.
           apply lookup_insert_eq.
        -- rewrite list_lookup_alter_ne in Ei' by congruence.
           rewrite lookup_insert_ne.
           ++ exact (Forall2_lookup_lr _ _ _ _ _ _ Hrows Ei Ei').
           ++ intros ->. apply Hne. symmetry. eapply NoDup_lookup; eauto.
    + exact Hnd.
Qed.

(** Writing the value a cell already holds changes nothing. *)
Lemma setitem_same (h : gmap positive obj) g L G x y :
  grid_at h g L G -> valid G ->
  Grid_setitem g (x, y) (cell_at G x y) h = (Ok tt, h).
Proof.
  intros Hat HG.
  destruct (setitem_spec h g L G x y (cell_at G x y) Hat HG) as (r & row & Er & Erow & Hr & E & _).
  rewrite E. f_equal.
  destruct (valid_cell G x y HG) as (row' & Erow' & _ & Ecell).
  rewrite Erow in Erow'. inversion Erow'; subst row'.
  rewrite list_insert_id by exact Ecell. apply insert_id. exact Hr.
Qed.

(** ** Reading a written grid *)

Lemma cell_at_set_cell G x y v a b :
  valid G ->
  cell_at (set_cell G x y v) a b =
    if decide (a mod g_width G = x mod g_width G /\ b mod g_height G = y mod g_height G)
    then v else cell_at G a b.
Proof.
  intros HG.
  destruct (valid_cell G a b HG) as (rowb & Eb & Hlenb & Ecb).
  destruct HG as (Hw & Hh & _).
  pose proof (wrap_range a _ Hw) as Ha. pose proof (wrap_range b _ Hh) as Hb.
  pose proof (wrap_range x _ Hw) as Hx. pose proof (wrap_range y _ Hh) as Hy.
  unfold cell_at at 1. cbn [set_cell g_width g_height g_cells].
  destruct (decide (b mod g_height G = y mod g_height G)) as [Eby|Nby].
  - rewrite <- Eby. rewrite list_lookup_alter_eq, Eb. cbn.
    destruct (decide (a mod g_width G = x mod g_width G)) as [Eax|Nax].
    + rewrite <- Eax. rewrite list_lookup_insert_eq.
      * destruct (decide _) as [_|N]; [reflexivity|]. exfalso. apply N. split; reflexivity.
      * revert Ha. generalize (a mod g_width G). intros; lia.
    + rewrite list_lookup_insert_ne.
      * rewrite Ecb. cbn. destruct (decide _) as [[E _]|_]; [contradiction|reflexivity].
      * intros E. apply Nax. symmetry. apply Z2Nat.inj; lia.
  - rewrite list_lookup_alter_ne.
    + rewrite Eb. cbn. rewrite Ecb. cbn. destruct (decide _) as [[_ E]|_]; [contradiction|reflexivity].
    + intros E. apply Nby. symmetry. apply Z2Nat.inj; lia.
Qed.

(** ** Allocation of grids: [Grid.__init__] and [deepcopy] *)

Lemma py_range_length n : length (py_range n) = Z.to_nat n.
Proof. unfold py_range. rewrite length_map, length_seq. reflexivity. Qed.

Lemma py_mul_singleton {A} (a : A) n : py_mul [a] n = replicate (Z.to_nat n) a.
Proof.
  unfold py_mul. induction (Z.to_nat n) as [|k IH]; [reflexivity|].
  cbn. rewrite IH. reflexivity.
Qed.

Lemma insert_fresh_subseteq (h : gmap positive obj) l o : h !! l = None -> h ⊆ <[l := o]> h.
Proof. intros E. apply insert_subseteq. exact E. Qed.

Lemma fresh_weaken (h h' : gmap positive obj) l : h ⊆ h' -> h' !! l = None -> h !! l = None.
Proof.
  intros Hsub E. destruct (h !! l) as [o|] eqn:El; [|reflexivity].
  rewrite (lookup_weaken _ _ _ _ El Hsub) in E. discriminate.
Qed.

Lemma rows_at_mono (h h' : gmap positive obj) rs rows :
  h ⊆ h' -> rows_at h rs rows -> rows_at h' rs rows.
Proof.
  intros Hsub Hrows. eapply Forall2_impl; [exact Hrows|]. intros r row E. cbn beta.
  exact (lookup_weaken _ _ _ _ E Hsub).
Qed.

Lemma rows_cons_new (h0 h1 h2 : gmap positive obj) r' row rs' rows' :
  h0 !! r' = None -> h1 = <[r' := ORow row]> h0 -> h1 ⊆ h2 ->
  rows_at h2 rs' rows' -> NoDup rs' -> Forall (fun r => h1 !! r = None) rs' ->
  h0 ⊆ h2 /\ rows_at h2 (r' :: rs') (row :: rows') /\ NoDup (r' :: rs') /\
  Forall (fun r => h0 !! r = None) (r' :: rs').
Proof.
  intros Hnew -> Hsub Hrows Hnd Hfresh.
  pose proof (insert_fresh_subseteq h0 r' (ORow row) Hnew) as Hsub0.
  split; [etrans; eassumption|]. split; [|split].
  - constructor; [|exact Hrows].
    apply (lookup_weaken _ _ _ _ (lookup_insert_eq h0 r' (ORow row)) Hsub).
  - constructor; [|exact Hnd]. intros Hin.
    rewrite Forall_forall in Hfresh. specialize (Hfresh _ Hin).
    rewrite lookup_insert_eq in Hfresh. discriminate.
  - constructor; [exact Hnew|].
    eapply Forall_impl; [exact Hfresh|]. intros r E. cbn beta in *.
    exact (fresh_weaken _ _ _ Hsub0 E).
Qed.

Lemma alloc_rows_spec {A} (l : list A) cs (h : gmap positive obj) :
  exists rs h',
    comprehension l (fun _ => alloc (ORow cs)) h = (Ok rs, h') /\
    h ⊆ h' /\ rows_at h' rs (replicate (length l) cs) /\ NoDup rs /\
    Forall (fun r => h !! r = None) rs.
Proof.
  revert h. induction l as [|a l IH]; intros h.
  - exists [], h. split; [reflexivity|]. split; [reflexivity|].
    split; [constructor|]. split; constructor.
  - destruct (alloc_fresh h (ORow cs)) as (r' & Ealloc & Hnew).
    destruct (IH (<[r' := ORow cs]> h)) as (rs' & h2 & E2 & Hsub & Hrows & Hnd & Hfresh).
    exists (r' :: rs'), h2. split.
    + cbn [comprehension]. rewrite (bind_ok _ _ _ _ _ Ealloc).
      rewrite (bind_ok _ _ _ _ _ E2). reflexivity.
    + cbn [length replicate]. eapply rows_cons_new; eauto.
Qed.

Lemma deepcopy_rows_spec rs : forall (memo : gmap positive positive) (h : gmap positive obj) rows,
  NoDup rs -> (forall r, r ∈ rs -> memo !! r = None) -> rows_at h rs rows ->
  exists rs' h',
    deepcopy_rows memo rs h = (Ok rs', h') /\
    h ⊆ h' /\ rows_at h' rs' rows /\ NoDup rs' /\
    Forall (fun r => h !! r = None) rs'.
Proof.
  induction rs as [|r rs IH]; intros memo h rows Hnd Hmemo Hrows.
  - inversion Hrows; subst. exists [], h. split; [reflexivity|]. split; [reflexivity|].
    split; [constructor|]. split; constructor.
  - inversion Hrows as [|? row ? rows' Hr Hrest]; subst.
    inversion Hnd as [|? ? Hnotin Hnd']; subst.
    destruct (alloc_fresh h (ORow row)) as (r' & Ealloc & Hnew).
    pose proof (insert_fresh_subseteq h r' (ORow row) Hnew) as Hsub0.
    destruct (IH (<[r := r']> memo) (<[r' := ORow row]> h) rows' Hnd')
      as (rs' & h2 & E2 & Hsub & Hrows2 & Hnd2 & Hfresh).
    + intros x Hx. rewrite lookup_insert_ne.
      * apply Hmemo. right. exact Hx.
      * intros ->. contradiction.
    + eapply rows_at_mono; eauto.
    + exists (r' :: rs'), h2. split.
      * cbn [deepcopy_rows]. rewrite (Hmemo r ltac:(left)).
        rewrite (bind_ok _ _ _ _ _ (load_row_ok _ _ _ Hr)).
        rewrite (bind_ok _ _ _ _ _ Ealloc).
        rewrite (bind_ok _ _ _ _ _ E2). reflexivity.
      * eapply rows_cons_new; eauto.
Qed.

(** A new instance built around rows that are new. *)
Lemma alloc_instance (h0 h1 : gmap positive obj) rs G :
  h0 ⊆ h1 -> rows_at h1 rs (g_cells G) -> NoDup rs ->
  Forall (fun r => h0 !! r = None) rs ->
  exists g L h',
    (let! d := alloc (ORows rs) in
     alloc (OGrid (GridObj (g_width G) (g_height G) d (g_generation G)))) h1 = (Ok g, h') /\
    h0 ⊆ h' /\ grid_at h' g L G /\ Forall (fun l => h0 !! l = None) (storage g L).
Proof.
  intros Hsub Hrows Hnd Hfresh.
  destruct (alloc_fresh h1 (ORows rs)) as (d & Ed & Hd).
  set (h2 := <[d := ORows rs]> h1) in *.
  destruct (alloc_fresh h2 (OGrid (GridObj (g_width G) (g_height G) d (g_generation G))))
    as (g & Eg & Hg).
  set (h3 := <[g := _]> h2) in *.
  assert (h1 ⊆ h2) as H12 by (apply insert_fresh_subseteq; exact Hd).
  assert (h2 ⊆ h3) as H23 by (apply insert_fresh_subseteq; exact Hg).
  exists g, (Layout d rs), h3. split.
  - rewrite (bind_ok _ _ _ _ _ Ed). exact Eg.
  - split; [etrans; [exact Hsub|]; etrans; eassumption|]. split.
    + split; cbn [l_data l_rows].
      * apply lookup_insert_eq.
      * apply (lookup_weaken _ _ _ _ (lookup_insert_eq h1 d (ORows rs)) H23).
      * eapply rows_at_mono; [|exact Hrows]. etrans; eassumption.
      * exact Hnd.
    + unfold storage. cbn [l_data l_rows].
      constructor; [|constructor; [|exact Hfresh]].
      * eapply fresh_weaken; [|exact Hg]. etrans; eassumption.
      * eapply fresh_weaken; [|exact Hd]. exact Hsub.
Qed.

Lemma Grid_init_spec w hh (h : gmap positive obj) :
  exists g L h',
    Grid_init w hh h = (Ok g, h') /\
    h ⊆ h' /\ grid_at h' g L (blank w hh) /\ Forall (fun l => h !! l = None) (storage g L).
Proof.
  destruct (alloc_rows_spec (py_range hh) (py_mul [EMPTY] w) h)
    as (rs & h1 & E1 & Hsub & Hrows & Hnd & Hfresh).
  rewrite py_range_length, py_mul_singleton in Hrows.
  destruct (alloc_instance h h1 rs (blank w hh) Hsub Hrows Hnd Hfresh)
    as (g & L & h' & E & Hsub' & Hat & Hnew).
  exists g, L, h'. split; [|auto].
  unfold Grid_init. rewrite (bind_ok _ _ _ _ _ E1). exact E.
Qed.

Lemma deepcopy_spec (h : gmap positive obj) g L G :
  grid_at h g L G ->
  exists g' L' h',
    deepcopy g h = (Ok g', h') /\
    h ⊆ h' /\ grid_at h' g' L' G /\ Forall (fun l => h !! l = None) (storage g' L').
Proof.
  intros [Hobj Hdata Hrows Hnd].
  destruct (deepcopy_rows_spec (l_rows L) ∅ h (g_cells G) Hnd) as
    (rs & h1 & E1 & Hsub & Hrows1 & Hnd1 & Hfresh).
  { intros r _. apply lookup_empty. }
  { exact Hrows. }
  destruct (alloc_instance h h1 rs G Hsub Hrows1 Hnd1 Hfresh)
    as (g' & L' & h' & E & Hsub' & Hat & Hnew).
  exists g', L', h'. split; [|auto].
  unfold deepcopy.
  rewrite (bind_ok _ _ _ _ _ (load_grid_ok _ _ _ Hobj)). cbn [data width height generation].
  rewrite (bind_ok _ _ _ _ _ (load_rows_ok _ _ _ Hdata)).
  rewrite (bind_ok _ _ _ _ _ E1). exact E.
Qed.

Lemma bump_generation_spec (h : gmap positive obj) g L G :
  grid_at h g L G ->
  exists h', bump_generation g h = (Ok tt, h') /\ grid_at h' g L (bump G) /\
             h' = <[g := OGrid (GridObj (g_width G) (g_height G) (l_data L) (g_generation G + 1))]> h.
Proof.
  intros [Hobj Hdata Hrows Hnd].
  exists (<[g := OGrid (GridObj (g_width G) (g_height G) (l_data L) (g_generation G + 1))]> h).
  split; [|split; [|reflexivity]].
  - unfold bump_generation. rewrite (bind_ok _ _ _ _ _ (load_grid_ok _ _ _ Hobj)). reflexivity.
  - split; cbn [bump g_width g_height g_cells g_generation].
    + apply lookup_insert_eq.
    + rewrite lookup_insert_ne; [exact Hdata|]. intros Eq. rewrite <- Eq in Hdata. congruence.
    + eapply Forall2_impl; [exact Hrows|]. intros r row E. cbn beta.
      rewrite lookup_insert_ne; [exact E|]. intros Eq. rewrite <- Eq in E. congruence.
    + exact Hnd.
Qed.

(** ** [step] computes [step_grid] on a copy *)

Lemma fold_left_map_arg {A B S} (f : S -> B -> S) (g : A -> B) l s :
  fold_left f (map g l) s = fold_left (fun s a => f s (g a)) l s.
Proof. revert s. induction l as [|a l IH]; intros s; [reflexivity|]. cbn. apply IH. Qed.

Lemma count_neighbours_spec m (h : gmap positive obj) g L G i j :
  grid_at h g L G -> valid G ->
  count_neighbours m g i j h = (Ok (count_at (trig_offsets m) G i j), h).
Proof.
  intros Hat HG. unfold count_neighbours, count_at, trig_offsets.
  rewrite fold_left_map_arg. apply for_acc_fold. intros s n _.
  rewrite (bind_ok _ _ _ _ _ (getitem_spec _ _ _ _ _ _ Hat HG)). reflexivity.
Qed.

Lemma touches_subseteq (h0 h h' : gmap positive obj) g L :
  Forall (fun l => h0 !! l = None) (storage g L) -> touches L h h' -> h0 ⊆ h -> h0 ⊆ h'.
Proof.
  intros Hnew [->|(r & o & Hin & ->)] Hsub; [exact Hsub|].
  apply insert_subseteq_r; [|exact Hsub].
  rewrite Forall_forall in Hnew. apply Hnew. unfold storage. right. right. exact Hin.
Qed.

Lemma setitem_touches (h : gmap positive obj) g L G x y v :
  grid_at h g L G -> valid G ->
  exists h', Grid_setitem g (x, y) v h = (Ok tt, h') /\
             grid_at h' g L (set_cell G x y v) /\ touches L h h'.
Proof.
  intros Hat HG.
  destruct (setitem_spec h g L G x y v Hat HG) as (r & row & Er & _ & _ & E & Hat').
  eexists. split; [exact E|]. split; [exact Hat'|].
  right. exists r. eexists. split; [|reflexivity].
  apply list_elem_of_lookup. eexists. exact Er.
Qed.

Lemma apply_rule_spec (h : gmap positive obj) g L G next L' N i j n :
  grid_at h g L G -> valid G -> grid_at h next L' N -> valid N ->
  exists h', apply_rule g next i j n h = (Ok tt, h') /\
             grid_at h' next L' (rule_at G N i j n) /\ touches L' h h'.
Proof.
  intros Hat HG Hnext HN. unfold apply_rule, rule_at.
  rewrite (bind_ok _ _ _ _ _ (getitem_spec _ _ _ _ _ _ Hat HG)).
  destruct (decide (cell_at G i j = FILLED)) as [_|_].
  - destruct (negb _).
    + apply setitem_touches; assumption.
    + exists h. split; [reflexivity|]. split; [exact Hnext|]. left. reflexivity.
  - destruct (n =? 3).
    + apply setitem_touches; assumption.
    + exists h. split; [reflexivity|]. split; [exact Hnext|]. left. reflexivity.
Qed.

Lemma rule_at_valid G N i j n : valid N -> valid (rule_at G N i j n).
Proof.
  intros HN. unfold rule_at.
  destruct (decide (cell_at G i j = FILLED)); [destruct (negb _)|destruct (n =? 3)];
    try exact HN; apply set_cell_valid; exact HN.
Qed.

Lemma step_spec m (h : gmap positive obj) g L G :
  grid_at h g L G -> valid G ->
  exists g' L' h',
    step m g h = (Ok g', h') /\ h ⊆ h' /\
    grid_at h' g' L' (step_grid (trig_offsets m) G) /\
    Forall (fun l => h !! l = None) (storage g' L').
Proof.
  intros Hat HG.
  destruct (deepcopy_spec h g L G Hat) as (next & L' & h1 & Ecopy & Hsub1 & Hnext1 & Hnew).
  destruct (bump_generation_spec h1 next L' G Hnext1) as (h2 & Ebump & Hnext2 & Eh2).
  assert (h ⊆ h2) as Hsub2.
  { rewrite Eh2. apply insert_subseteq_r; [|exact Hsub1].
    rewrite Forall_forall in Hnew. apply Hnew. left. }
  set (R := fun (N : Grid) (hk : gmap positive obj) =>
              h ⊆ hk /\ grid_at hk next L' N /\ valid N).
  assert (R (bump G) h2) as HR2.
  { split; [exact Hsub2|]. split; [exact Hnext2|]. exact HG. }
  set (inner := fun i N j => rule_at G N i j (count_at (trig_offsets m) G i j)).
  set (outer := fun N i => fold_left (inner i) (py_range (g_height G)) N).
  destruct (for_fold R outer (py_range (g_width G))
              (fun i => let! g0 := load_grid g in
                        for_ (py_range (height g0)) (fun j =>
                          let! neighbours := count_neighbours m g i j in
                          apply_rule g next i j neighbours))) with (s := bump G) (h := h2)
    as (h3 & Eloop & Hsub3 & Hnext3 & HN3).
  - intros N i hk _ (Hsubk & Hnextk & HNk).
    pose proof (grid_at_mono _ _ _ _ _ Hsubk Hat) as Hatk.
    rewrite (bind_ok _ _ _ _ _ (load_grid_ok _ _ _ (at_obj _ _ _ _ Hatk))). cbn [height].
    apply (for_fold R (inner i)); [|split; [exact Hsubk|split; assumption]].
    intros N' j hk' _ (Hsubk' & Hnextk' & HNk').
    pose proof (grid_at_mono _ _ _ _ _ Hsubk' Hat) as Hatk'.
    rewrite (bind_ok _ _ _ _ _ (count_neighbours_spec m _ _ _ _ i j Hatk' HG)).
    destruct (apply_rule_spec hk' g L G next L' N' i j (count_at (trig_offsets m) G i j)
                Hatk' HG Hnextk' HNk') as (h' & E & Hnext' & Ht).
    exists h'. split; [exact E|]. split; [|split].
    + eapply touches_subseteq; eauto.
    + exact Hnext'.
    + apply rule_at_valid. exact HNk'.
  - exact HR2.
  - exists next, L', h3. split; [|split; [exact Hsub3|split; [exact Hnext3|exact Hnew]]].
    unfold step. rewrite (bind_ok _ _ _ _ _ Ecopy). rewrite (bind_ok _ _ _ _ _ Ebump).
    pose proof (grid_at_mono _ _ _ _ _ Hsub2 Hat) as Hat2.
    unfold bind at 1.
    rewrite (bind_ok _ _ _ _ _ (load_grid_ok _ _ _ (at_obj _ _ _ _ Hat2))). cbn [width].
    rewrite Eloop. reflexivity.
Qed.

Lemma add_pattern_spec pattern x y (h : gmap positive obj) g L G :
  grid_at h g L G -> valid G ->
  exists h', add_pattern g pattern x y h = (Ok tt, h') /\
             grid_at h' g L (stamp_grid pattern x y G) /\ valid (stamp_grid pattern x y G).
Proof.
  intros Hat HG. unfold add_pattern, stamp_grid.
  destruct (for_fold (fun N hk => grid_at hk g L N /\ valid N)
              (fun N t => set_cell N (x + fst t) (y + snd t) FILLED) pattern
              (fun t => Grid_setitem g (x + fst t, y + snd t) FILLED)) with (s := G) (h := h)
    as (h' & E & Hat' & HG').
  - intros N t hk _ (Hatk & HNk).
    destruct (setitem_touches hk g L N (x + fst t) (y + snd t) FILLED Hatk HNk)
      as (hk' & E & Hat' & _).
    exists hk'. split; [exact E|]. split; [exact Hat'|]. apply set_cell_valid. exact HNk.
  - split; assumption.
  - exists h'. auto.
Qed.

(** ** The content of the next generation, cell by cell *)

Lemma elem_of_py_range a n : a ∈ py_range n <-> 0 <= a < n.
Proof.
  unfold py_range. rewrite list_elem_of_fmap. split.
  - intros (k & -> & Hk). apply list_elem_of_In, in_seq in Hk. lia.
  - intros Ha. exists (Z.to_nat a). split; [lia|].
    apply list_elem_of_In, in_seq. lia.
Qed.

Lemma fold_left_invariant {A S} (I : list A -> S -> Prop) (f : S -> A -> S) l :
  (forall seen a s, a ∈ l -> I seen s -> I (a :: seen) (f s a)) ->
  forall seen s, I seen s -> I (rev l ++ seen) (fold_left f l s).
Proof.
  induction l as [|a l IH]; intros Hstep seen s HI; [exact HI|].
  cbn [fold_left rev]. rewrite <- app_assoc. cbn [app].
  apply IH.
  - intros seen' a' s' Hin. apply Hstep. right. exact Hin.
  - apply Hstep; [left|exact HI].
Qed.

Lemma fold_left_nested {A B S} (f : S -> A -> B -> S) (la : list A) (lb : list B) s :
  fold_left (fun s a => fold_left (fun s b => f s a b) lb s) la s =
  fold_left (fun s p => f s (fst p) (snd p)) (flat_map (fun a => map (pair a) lb) la) s.
Proof.
  revert s. induction la as [|a la IH]; intros s; [reflexivity|].
  cbn [fold_left flat_map]. rewrite fold_left_app, <- IH. f_equal.
  rewrite fold_left_map_arg. reflexivity.
Qed.

Lemma elem_of_visited G a b :
  (a, b) ∈ visited G <-> 0 <= a < g_width G /\ 0 <= b < g_height G.
Proof.
  unfold visited. rewrite list_elem_of_In, in_flat_map. split.
  - intros (i & Hi & Hin). apply in_map_iff in Hin. destruct Hin as (j & E & Hj).
    inversion E; subst. apply list_elem_of_In, elem_of_py_range in Hi.
    apply list_elem_of_In, elem_of_py_range in Hj. auto.
  - intros [Ha Hb]. exists a. split.
    + apply list_elem_of_In, elem_of_py_range. exact Ha.
    + apply in_map. apply list_elem_of_In, elem_of_py_range. exact Hb.
Qed.

Lemma set_cell_in_range N i j v a b :
  valid N -> 0 <= i < g_width N -> 0 <= j < g_height N ->
  0 <= a < g_width N -> 0 <= b < g_height N ->
  cell_at (set_cell N i j v) a b = if decide ((a, b) = (i, j)) then v else cell_at N a b.
Proof.
  intros HN Hi Hj Ha Hb. rewrite cell_at_set_cell by exact HN.
  rewrite !Z.mod_small by assumption.
  destruct (decide (a = i /\ b = j)) as [[-> ->]|Hne]; destruct (decide _) as [E|Hne'];
    try reflexivity.
  - contradiction.
  - inversion E; subst. exfalso. apply Hne. split; reflexivity.
Qed.

Lemma progress_step offs G seen N i j :
  0 <= i < g_width G -> 0 <= j < g_height G ->
  progress offs G seen N ->
  progress offs G ((i, j) :: seen) (rule_at G N i j (count_at offs G i j)).
Proof.
  intros Hi Hj [HN Hw Hh Hgen Hcells].
  split.
  - apply rule_at_valid. exact HN.
  - unfold rule_at.
    destruct (decide (cell_at G i j = FILLED)); [destruct (negb _)|destruct (_ =? 3)]; exact Hw.
  - unfold rule_at.
    destruct (decide (cell_at G i j = FILLED)); [destruct (negb _)|destruct (_ =? 3)]; exact Hh.
  - unfold rule_at.
    destruct (decide (cell_at G i j = FILLED)); [destruct (negb _)|destruct (_ =? 3)]; exact Hgen.
  - intros a b Ha Hb.
    assert (forall v, cell_at (set_cell N i j v) a b =
                      if decide ((a, b) = (i, j)) then v else cell_at N a b) as Hset.
    { intros v. apply set_cell_in_range; rewrite ?Hw, ?Hh; assumption. }
    specialize (Hcells a b Ha Hb).
    destruct (decide ((a, b) = (i, j))) as [E|Hne].
    + inversion E; subst a b.
      rewrite decide_True by left.
      unfold rule_at, next_cell in *. cbv zeta in *.
      destruct (decide (cell_at G i j = FILLED)) as [Ec|Nc].
      * destruct (negb _); [apply Hset|].
        rewrite Hcells. destruct (decide _); reflexivity.
      * destruct (_ =? 3); [apply Hset|].
        rewrite Hcells. destruct (decide _); reflexivity.
    + assert (cell_at (rule_at G N i j (count_at offs G i j)) a b = cell_at N a b) as ->.
      { unfold rule_at.
        destruct (decide (cell_at G i j = FILLED)); [destruct (negb _)|destruct (_ =? 3)];
          rewrite ?Hset; reflexivity. }
      rewrite Hcells.
      destruct (decide ((a, b) ∈ seen)) as [Hin|Hnin].
      * rewrite decide_True by (right; exact Hin). reflexivity.
      * rewrite decide_False; [reflexivity|].
        intros Hin. apply elem_of_cons in Hin. destruct Hin as [E|Hin]; contradiction.
Qed.

Lemma step_grid_progress offs G :
  valid G -> progress offs G (rev (visited G) ++ []) (step_grid offs G).
Proof.
  intros HG. unfold step_grid.
  rewrite (fold_left_nested (fun N i j => rule_at G N i j (count_at offs G i j))).
  apply (fold_left_invariant (progress offs G)).
  - intros seen [i j] N Hin Hpr. apply elem_of_visited in Hin. destruct Hin as [Hi Hj].
    apply progress_step; assumption.
  - split.
    + exact HG.
    + reflexivity.
    + reflexivity.
    + reflexivity.
    + intros a b _ _. rewrite decide_False; [reflexivity|]. apply not_elem_of_nil.
Qed.

Lemma step_grid_cell offs G i j :
  valid G -> 0 <= i < g_width G -> 0 <= j < g_height G ->
  cell_at (step_grid offs G) i j = next_cell offs G i j.
Proof.
  intros HG Hi Hj. destruct (step_grid_progress offs G HG) as [_ _ _ _ Hcells].
  rewrite Hcells by assumption. rewrite decide_True; [reflexivity|].
  rewrite app_nil_r. apply list_elem_of_In. rewrite <- in_rev.
  apply list_elem_of_In, elem_of_visited. auto.
Qed.

Lemma step_grid_frame offs G :
  valid G ->
  valid (step_grid offs G) /\ g_width (step_grid offs G) = g_width G /\
  g_height (step_grid offs G) = g_height G /\
  g_generation (step_grid offs G) = g_generation G + 1.
Proof. intros HG. destruct (step_grid_progress offs G HG). auto. Qed.

(** Counting with a loop and counting a filtered list agree. *)
Lemma count_fold_filter {A} (P : A -> Prop) `{forall a, Decision (P a)} (l : list A) acc :
  fold_left (fun acc d => if decide (P d) then acc + 1 else acc) l acc =
  acc + Z.of_nat (length (filter P l)).
Proof.
  revert acc. induction l as [|a l IH]; intros acc; cbn [fold_left].
  - cbn. lia.
  - rewrite IH. rewrite filter_cons. destruct (decide (P a)); cbn [length]; lia.
Qed.

Lemma count_at_moore G i j : count_at MOORE_OFFSETS G i j = moore_count G i j.
Proof.
  unfold count_at, moore_count.
  rewrite (count_fold_filter (fun d => cell_at G (i + fst d) (j + snd d) = FILLED)).
  lia.
Qed.

(** ** Stamping *)

Lemma stamp_grid_valid pattern x y G : valid G -> valid (stamp_grid pattern x y G).
Proof.
  unfold stamp_grid. revert G. induction pattern as [|t p IH]; intros G HG; [exact HG|].
  cbn [fold_left]. apply IH. apply set_cell_valid. exact HG.
Qed.

Lemma set_cell_filled_or_old N x y a b :
  valid N -> cell_at (set_cell N x y FILLED) a b = FILLED \/
             cell_at (set_cell N x y FILLED) a b = cell_at N a b.
Proof.
  intros HN. rewrite cell_at_set_cell by exact HN. destruct (decide _); auto.
Qed.

Lemma stamp_grid_cells pattern x y G a b :
  valid G ->
  cell_at (stamp_grid pattern x y G) a b = FILLED \/
  cell_at (stamp_grid pattern x y G) a b = cell_at G a b.
Proof.
  unfold stamp_grid. revert G. induction pattern as [|t p IH]; intros G HG; [right; reflexivity|].
  cbn [fold_left].
  destruct (IH _ (set_cell_valid G (x + fst t) (y + snd t) FILLED HG)) as [E|E].
  - left. exact E.
  - rewrite E. apply set_cell_filled_or_old. exact HG.
Qed.

Lemma stamp_grid_keeps_filled pattern x y G a b :
  valid G -> cell_at G a b = FILLED -> cell_at (stamp_grid pattern x y G) a b = FILLED.
Proof.
  intros HG E. destruct (stamp_grid_cells pattern x y G a b HG) as [E'|E']; congruence.
Qed.

Lemma stamp_grid_filled pattern x y G t :
  valid G -> t ∈ pattern ->
  cell_at (stamp_grid pattern x y G) (x + fst t) (y + snd t) = FILLED.
Proof.
  unfold stamp_grid. revert G. induction pattern as [|t' p IH]; intros G HG Hin.
  - apply elem_of_nil in Hin. contradiction.
  - cbn [fold_left]. apply elem_of_cons in Hin. destruct Hin as [->|Hin].
    + apply (stamp_grid_keeps_filled p x y); [apply set_cell_valid; exact HG|].
      rewrite cell_at_set_cell by exact HG. rewrite decide_True; [reflexivity|]. split; reflexivity.
    + apply IH; [apply set_cell_valid; exact HG|exact Hin].
Qed.

(** Stamping cells that are [FILLED] already leaves the heap as it is. *)
Lemma add_pattern_filled pattern x y (h : gmap positive obj) g L G :
  grid_at h g L G -> valid G ->
  (forall t, t ∈ pattern -> cell_at G (x + fst t) (y + snd t) = FILLED) ->
  add_pattern g pattern x y h = (Ok tt, h).
Proof.
  intros Hat HG. unfold add_pattern. induction pattern as [|t p IH]; intros Hall; [reflexivity|].
  cbn [for_]. rewrite <- (Hall t ltac:(left)).
  rewrite (bind_ok _ _ _ _ _ (setitem_same _ _ _ _ _ _ Hat HG)).
  rewrite (Hall t ltac:(left)). apply IH. intros t' Hin. apply Hall. right. exact Hin.
Qed.

(** ** Cell states *)

Lemma set_cell_two_valued N x y v :
  v = EMPTY \/ v = FILLED -> two_valued N -> two_valued (set_cell N x y v).
Proof.
  intros Hv HN. unfold two_valued, set_cell. cbn [g_cells].
  apply Forall_alter; [exact HN|]. intros row _ Hrow.
  apply Forall_insert; assumption.
Qed.

Lemma rule_at_two_valued G N i j n : two_valued N -> two_valued (rule_at G N i j n).
Proof.
  intros HN. unfold rule_at.
  destruct (decide (cell_at G i j = FILLED)); [destruct (negb _)|destruct (n =? 3)];
    try exact HN; apply set_cell_two_valued; auto.
Qed.

Lemma fold_left_preserves {A S} (P : S -> Prop) (f : S -> A -> S) l s :
  (forall s a, P s -> P (f s a)) -> P s -> P (fold_left f l s).
Proof.
  intros Hf. revert s. induction l as [|a l IH]; intros s Hs; [exact Hs|].
  cbn. apply IH. apply Hf. exact Hs.
Qed.

Lemma step_grid_two_valued offs G : two_valued G -> two_valued (step_grid offs G).
Proof.
  intros HG. unfold step_grid.
  apply (fold_left_preserves two_valued); [|exact HG].
  intros N i HN. apply (fold_left_preserves two_valued); [|exact HN].
  intros N' j HN'. apply rule_at_two_valued. exact HN'.
Qed.

Lemma stamp_grid_two_valued pattern x y G : two_valued G -> two_valued (stamp_grid pattern x y G).
Proof.
  intros HG. unfold stamp_grid. apply (fold_left_preserves two_valued); [|exact HG].
  intros N t HN. apply set_cell_two_valued; auto.
Qed.

Lemma blank_valid w hh : 0 < w -> 0 < hh -> valid (blank w hh).
Proof.
  intros Hw Hh. split; [exact Hw|]. split; [exact Hh|]. split; cbn.
  - rewrite length_replicate. lia.
  - apply Forall_replicate. rewrite length_replicate. lia.
Qed.

(** ** Sample heaps *)

Lemma blinker_grid_at :
  grid_at blinker_heap blinker_loc blinker_layout (pattern_grid BLINKER_ROW 0).
Proof.
  split.
  - vm_compute. reflexivity.
  - vm_compute. reflexivity.
  - repeat constructor; vm_compute; reflexivity.
  - cbn. compute_done.
Qed.

Lemma pattern_grid_valid pattern generation : valid (pattern_grid pattern generation).
Proof.
  unfold pattern_grid.
  destruct (stamp_grid_valid pattern 0 0 (blank 5 5)) as (Hw & Hh & Hs).
  - apply blank_valid; lia.
  - split; [exact Hw|]. split; [exact Hh|]. exact Hs.
Qed.

Lemma single_grid_at :
  grid_at single_heap single_loc single_layout (MkGrid 1 1 [[FILLED]] 0).
Proof.
  split.
  - vm_compute. reflexivity.
  - vm_compute. reflexivity.
  - repeat constructor; vm_compute; reflexivity.
  - cbn. compute_done.
Qed.

Lemma single_valid c generation : valid (MkGrid 1 1 [[c]] generation).
Proof. split; [reflexivity|]. split; [reflexivity|]. split; repeat constructor. Qed.

Lemma blinker_step_row generation :
  step_grid MOORE_OFFSETS (pattern_grid BLINKER_ROW generation) =
  pattern_grid BLINKER_COLUMN (generation + 1).
Proof. vm_compute. reflexivity. Qed.

Lemma blinker_step_column generation :
  step_grid MOORE_OFFSETS (pattern_grid BLINKER_COLUMN generation) =
  pattern_grid BLINKER_ROW (generation + 1).
Proof. vm_compute. reflexivity. Qed.

(** * The properties of the specification *)

(** ** Construction *)

(** C1, as stated, fails on the code: [Grid(0, 0)] is constructed, no
    exception is raised. *)
Lemma init_accepts_zero_dimensions :
  fst (Grid_init 0 0 ∅) = Ok 2%positive /\
  ~ (exists e, fst (Grid_init 0 0 ∅) = Raise e).
Proof.
  assert (fst (Grid_init 0 0 ∅) = Ok 2%positive) as E by (vm_compute; reflexivity).
  split; [exact E|]. intros [e He]. rewrite E in He. discriminate.
Qed.

(** C1, amended: [Grid.__init__] checks nothing and never raises.  For any
    integers [width] and [height] and any heap it returns a new instance
    with generation 0 whose content is [blank width height]: [max(height, 0)]
    rows of [max(width, 0)] cells, every one [EMPTY].  The objects of the
    heap it started from are left as they were, the storage of the instance
    is new. *)
Theorem init_total (w hh : Z) (h : gmap positive obj) :
  exists g L h',
    Grid_init w hh h = (Ok g, h') /\
    h ⊆ h' /\
    grid_at h' g L (blank w hh) /\
    g_generation (blank w hh) = 0 /\
    g_cells (blank w hh) = replicate (Z.to_nat hh) (replicate (Z.to_nat w) EMPTY) /\
    Forall (fun l => h !! l = None) (storage g L).
Proof.
  destruct (Grid_init_spec w hh h) as (g & L & h' & E & Hsub & Hat & Hnew).
  exists g, L, h'. split; [exact E|]. split; [exact Hsub|]. split; [exact Hat|].
  split; [reflexivity|]. split; [reflexivity|]. exact Hnew.
Qed.

(** ** Wraparound *)

Lemma cell_at_shift_x G x y : cell_at G (x + g_width G) y = cell_at G x y.
Proof.
  unfold cell_at. replace (x + g_width G) with (x + 1 * g_width G) by lia.
  rewrite Z_mod_plus_full. reflexivity.
Qed.

Lemma cell_at_shift_y G x y : cell_at G x (y + g_height G) = cell_at G x y.
Proof.
  unfold cell_at. replace (y + g_height G) with (y + 1 * g_height G) by lia.
  rewrite Z_mod_plus_full. reflexivity.
Qed.

Lemma setitem_shift (h : gmap positive obj) g L G x y v :
  grid_at h g L G -> valid G ->
  Grid_setitem g (x + g_width G, y + g_height G) v h = Grid_setitem g (x, y) v h.
Proof.
  intros Hat HG.
  destruct (setitem_spec h g L G x y v Hat HG) as (r & row & Er & Erow & _ & E & _).
  destruct (setitem_spec h g L G (x + g_width G) (y + g_height G) v Hat HG)
    as (r' & row' & Er' & Erow' & _ & E' & _).
  replace (x + g_width G) with (x + 1 * g_width G) in E' by lia.
  replace (y + g_height G) with (y + 1 * g_height G) in Er', Erow', E' by lia.
  rewrite ?Z_mod_plus_full in Er', Erow', E'.
  rewrite Er in Er'. rewrite Erow in Erow'. inversion Er'; inversion Erow'; subst r' row'.
  replace (x + g_width G) with (x + 1 * g_width G) by lia.
  replace (y + g_height G) with (y + 1 * g_height G) by lia.
  rewrite E, E'. reflexivity.
Qed.

(** C2: on a valid grid of size [(W, H)], reading at [(x, y)], at
    [(x + W, y)] and at [(x, y + H)] succeeds with one and the same cell,
    reading at [(-1, 0)] gives the cell at [(W - 1, 0)], and the wrapped
    coordinate is [(x mod W, y mod H)], which lies in [[0, W) x [0, H)].
    Writing wraps the same way. *)
Theorem getitem_wraparound (h : gmap positive obj) g L G (x y : Z) :
  grid_at h g L G -> valid G ->
  (exists c,
     Grid_getitem g (x, y) h = (Ok c, h) /\
     Grid_getitem g (x + g_width G, y) h = (Ok c, h) /\
     Grid_getitem g (x, y + g_height G) h = (Ok c, h)) /\
  (exists c,
     Grid_getitem g (-1, 0) h = (Ok c, h) /\
     Grid_getitem g (g_width G - 1, 0) h = (Ok c, h)) /\
  wrap (GridObj (g_width G) (g_height G) (l_data L) (g_generation G)) (x, y) h =
    (Ok (x mod g_width G, y mod g_height G), h) /\
  0 <= x mod g_width G < g_width G /\
  0 <= y mod g_height G < g_height G /\
  (forall v, Grid_setitem g (x + g_width G, y + g_height G) v h = Grid_setitem g (x, y) v h).
Proof.
  intros Hat HG. pose proof HG as (Hw & Hh & _). split; [|split; [|split; [|split; [|split]]]].
  - exists (cell_at G x y). split; [|split].
    + apply (getitem_spec h g L G); assumption.
    + rewrite <- (cell_at_shift_x G x y). apply (getitem_spec h g L G); assumption.
    + rewrite <- (cell_at_shift_y G x y). apply (getitem_spec h g L G); assumption.
  - exists (cell_at G (-1) 0). split.
    + apply (getitem_spec h g L G); assumption.
    + rewrite <- (cell_at_shift_x G (-1) 0).
      replace (-1 + g_width G) with (g_width G - 1) by lia.
      apply (getitem_spec h g L G); assumption.
  - apply (wrap_ok (GridObj _ _ _ _) (x, y) h); assumption.
  - apply wrap_range. exact Hw.
  - apply wrap_range. exact Hh.
  - intros v. apply (setitem_shift h g L G); assumption.
Qed.

Lemma getitem_wraparound_witness :
  grid_at blinker_heap blinker_loc blinker_layout (pattern_grid BLINKER_ROW 0) /\
  valid (pattern_grid BLINKER_ROW 0) /\
  exists c,
    Grid_getitem blinker_loc (-4, 7) blinker_heap = (Ok c, blinker_heap) /\
    Grid_getitem blinker_loc (-4 + 5, 7) blinker_heap = (Ok c, blinker_heap) /\
    Grid_getitem blinker_loc (-4, 7 + 5) blinker_heap = (Ok c, blinker_heap).
Proof.
  split; [exact blinker_grid_at|]. split; [exact (pattern_grid_valid BLINKER_ROW 0)|].
  exact (proj1 (getitem_wraparound blinker_heap blinker_loc blinker_layout
                  (pattern_grid BLINKER_ROW 0) (-4) 7
                  blinker_grid_at (pattern_grid_valid BLINKER_ROW 0))).
Defined.

(** ** The next generation *)

(** C3: [step] on a valid grid returns a new instance and mutates nothing
    that existed: every object of the heap, the input grid with its cells,
    width, height and generation among them, is as before.  The result has
    the width and height of the input and its generation plus one.  Its
    storage is made of new objects, and writing any cell of the result
    afterwards leaves the input as it was. *)
Theorem step_leaves_input (m : libm) (h : gmap positive obj) g L G :
  grid_at h g L G -> valid G ->
  exists g' L' G' h',
    step m g h = (Ok g', h') /\
    h ⊆ h' /\
    grid_at h' g L G /\
    grid_at h' g' L' G' /\
    g_generation G' = g_generation G + 1 /\
    g_width G' = g_width G /\
    g_height G' = g_height G /\
    Forall (fun l => h !! l = None) (storage g' L') /\
    forall t v, exists h'',
      Grid_setitem g' t v h' = (Ok tt, h'') /\ h ⊆ h'' /\ grid_at h'' g L G.
Proof.
  intros Hat HG.
  destruct (step_spec m h g L G Hat HG) as (g' & L' & h' & E & Hsub & Hat' & Hnew).
  destruct (step_grid_frame (trig_offsets m) G HG) as (HG' & Hw & Hh & Hgen).
  exists g', L', (step_grid (trig_offsets m) G), h'.
  split; [exact E|]. split; [exact Hsub|].
  split; [exact (grid_at_mono _ _ _ _ _ Hsub Hat)|].
  split; [exact Hat'|]. split; [exact Hgen|]. split; [exact Hw|]. split; [exact Hh|].
  split; [exact Hnew|].
  intros [x y] v.
  destruct (setitem_touches h' g' L' _ x y v Hat' HG') as (h'' & E'' & _ & Ht).
  exists h''. split; [exact E''|].
  assert (h ⊆ h'') as Hsub'' by (eapply touches_subseteq; eauto).
  split; [exact Hsub''|]. exact (grid_at_mono _ _ _ _ _ Hsub'' Hat).
Qed.

Lemma step_leaves_input_witness :
  grid_at blinker_heap blinker_loc blinker_layout (pattern_grid BLINKER_ROW 0) /\
  valid (pattern_grid BLINKER_ROW 0) /\
  exists g' L' G' h',
    step table_libm blinker_loc blinker_heap = (Ok g', h') /\
    grid_at h' blinker_loc blinker_layout (pattern_grid BLINKER_ROW 0) /\
    grid_at h' g' L' G' /\
    g_generation G' = 0 + 1.
Proof.
  split; [exact blinker_grid_at|]. split; [exact (pattern_grid_valid BLINKER_ROW 0)|].
  destruct (step_leaves_input table_libm blinker_heap blinker_loc blinker_layout
              (pattern_grid BLINKER_ROW 0) blinker_grid_at (pattern_grid_valid BLINKER_ROW 0))
    as (g' & L' & G' & h' & E & _ & Hat & Hat' & Hgen & _).
  exists g', L', G', h'. split; [exact E|]. split; [exact Hat|]. split; [exact Hat'|]. exact Hgen.
Defined.

Lemma EMPTY_ne_FILLED : EMPTY <> FILLED.
Proof. discriminate. Qed.

(** C4: on a valid grid, for every cell [(i, j)] of the grid, with [n] the
    number of [FILLED] cells among its 8 toroidally wrapped Moore
    neighbours in the input [G]: a [FILLED] cell is [FILLED] in the result
    iff [n] is 2 or 3 and [EMPTY] otherwise; an [EMPTY] cell is [FILLED] in
    the result iff [n] is 3 and [EMPTY] otherwise.  The count is taken on
    the input content [G] alone. *)
Theorem step_rule (m : libm) (h : gmap positive obj) g L G :
  libm_accurate m -> grid_at h g L G -> valid G ->
  exists g' L' G' h',
    step m g h = (Ok g', h') /\
    grid_at h' g' L' G' /\
    forall i j, 0 <= i < g_width G -> 0 <= j < g_height G ->
      Grid_getitem g' (i, j) h' = (Ok (cell_at G' i j), h') /\
      (cell_at G i j = FILLED ->
         (cell_at G' i j = FILLED <-> moore_count G i j = 2 \/ moore_count G i j = 3) /\
         (~ (moore_count G i j = 2 \/ moore_count G i j = 3) -> cell_at G' i j = EMPTY)) /\
      (cell_at G i j = EMPTY ->
         (cell_at G' i j = FILLED <-> moore_count G i j = 3) /\
         (moore_count G i j <> 3 -> cell_at G' i j = EMPTY)).
Proof.
  intros Hm Hat HG.
  destruct (step_spec m h g L G Hat HG) as (g' & L' & h' & E & Hsub & Hat' & Hnew).
  rewrite (trig_offsets_table m Hm) in Hat'.
  destruct (step_grid_frame MOORE_OFFSETS G HG) as (HG' & _).
  exists g', L', (step_grid MOORE_OFFSETS G), h'.
  split; [exact E|]. split; [exact Hat'|]. intros i j Hi Hj.
  split; [apply (getitem_spec h' g' L'); assumption|].
  rewrite (step_grid_cell MOORE_OFFSETS G i j HG Hi Hj).
  unfold next_cell. cbv zeta. rewrite count_at_moore.
  pose proof EMPTY_ne_FILLED as Hne.
  set (n := moore_count G i j). split; intros Ec; rewrite Ec.
  - rewrite decide_True by reflexivity.
    destruct (1 <? n) eqn:E1; destruct (n <? 4) eqn:E4; cbn [negb andb];
      try apply Z.ltb_lt in E1; try apply Z.ltb_lt in E4;
      try apply Z.ltb_ge in E1; try apply Z.ltb_ge in E4;
      (split; [split|]); intros; try reflexivity; try lia; try congruence.
  - rewrite decide_False by exact Hne.
    destruct (n =? 3) eqn:E3; [apply Z.eqb_eq in E3|apply Z.eqb_neq in E3];
      (split; [split|]); intros; try reflexivity; try lia; try congruence.
Qed.

Lemma step_rule_witness :
  libm_accurate table_libm /\
  grid_at blinker_heap blinker_loc blinker_layout (pattern_grid BLINKER_ROW 0) /\
  valid (pattern_grid BLINKER_ROW 0) /\
  exists g' L' G' h',
    step table_libm blinker_loc blinker_heap = (Ok g', h') /\
    grid_at h' g' L' G' /\
    Grid_getitem g' (2, 1) h' = (Ok (cell_at G' 2 1), h').
Proof.
  split; [exact table_libm_accurate|].
  split; [exact blinker_grid_at|]. split; [exact (pattern_grid_valid BLINKER_ROW 0)|].
  destruct (step_rule table_libm blinker_heap blinker_loc blinker_layout
              (pattern_grid BLINKER_ROW 0) table_libm_accurate blinker_grid_at
              (pattern_grid_valid BLINKER_ROW 0))
    as (g' & L' & G' & h' & E & Hat' & Hcells).
  exists g', L', G', h'. split; [exact E|]. split; [exact Hat'|].
  apply (Hcells 2 1); cbn; lia.
Defined.

Lemma bind_cong {A B} (m m' : M A) (f f' : A -> M B) h :
  m h = m' h -> (forall a h', f a h' = f' a h') -> bind m f h = bind m' f' h.
Proof.
  intros Em Ef. unfold bind. rewrite Em. destruct (m' h) as [[a|e] h']; [apply Ef|reflexivity].
Qed.

Lemma for_cong {A} (l : list A) (body body' : A -> M unit) :
  (forall a h, body a h = body' a h) -> forall h, for_ l body h = for_ l body' h.
Proof.
  intros Hb. induction l as [|a l IH]; intros h; [reflexivity|].
  cbn [for_]. apply bind_cong; [apply Hb|]. intros _ h'. apply IH.
Qed.

(** With an accurate library the loop of the source and the loop over the
    table are one computation, on every heap. *)
Lemma count_neighbours_is_table m grid i j (h : gmap positive obj) :
  libm_accurate m ->
  count_neighbours m grid i j h = count_neighbours_table grid i j h.
Proof.
  intros Hm. pose proof (trig_offsets_table m Hm) as E.
  unfold trig_offsets, MOORE_OFFSETS, neighbour_offset in E.
  change (py_range 8) with [0; 1; 2; 3; 4; 5; 6; 7] in E. cbn [map] in E.
  injection E as C0 S0 C1 S1 C2 S2 C3 S3 C4 S4 C5 S5 C6 S6 C7 S7.
  unfold count_neighbours, count_neighbours_table, MOORE_OFFSETS.
  change (py_range 8) with [0; 1; 2; 3; 4; 5; 6; 7]. cbn [for_acc fst snd]. cbv zeta.
  rewrite C0, S0, C1, S1, C2, S2, C3, S3, C4, S4, C5, S5, C6, S6, C7, S7.
  reflexivity.
Qed.

Lemma step_is_table m grid (h : gmap positive obj) :
  libm_accurate m -> step m grid h = step_table grid h.
Proof.
  intros Hm. unfold step, step_table.
  apply bind_cong; [reflexivity|]. intros next h1.
  apply bind_cong; [reflexivity|]. intros _ h2.
  apply bind_cong; [|reflexivity].
  apply bind_cong; [reflexivity|]. intros g h3.
  apply for_cong. intros i h4.
  apply bind_cong; [reflexivity|]. intros g' h5.
  apply for_cong. intros j h6.
  apply bind_cong; [|reflexivity].
  apply count_neighbours_is_table. exact Hm.
Qed.

(** C5: provided the math library returns, for each of the 8 angles
    [n * pi / 4], a cosine and a sine that differ from the exact value by
    less than a ten billionth and do not exceed one in magnitude, the
    enumeration [step] uses is the fixed table of the 8 Moore offsets, in
    the same order: the offsets are those of the table, the counting loop
    of [step] is, on every heap, the counting loop over the table, [step]
    itself is [step] over the table, and on a valid grid the count it
    obtains is the Moore-neighbour count. *)
Theorem trig_offsets_moore (m : libm) :
  libm_accurate m ->
  trig_offsets m =
    [(1, 0); (1, 1); (0, 1); (-1, 1); (-1, 0); (-1, -1); (0, -1); (1, -1)] /\
  trig_offsets m = MOORE_OFFSETS /\
  (forall grid i j (h : gmap positive obj),
     count_neighbours m grid i j h = count_neighbours_table grid i j h) /\
  (forall grid (h : gmap positive obj), step m grid h = step_table grid h) /\
  (forall (h : gmap positive obj) g L G i j,
     grid_at h g L G -> valid G ->
     count_neighbours m g i j h = (Ok (moore_count G i j), h)).
Proof.
  intros Hm. split; [exact (trig_offsets_table m Hm)|].
  split; [exact (trig_offsets_table m Hm)|].
  split; [intros grid i j h; apply count_neighbours_is_table; exact Hm|].
  split; [intros grid h; apply step_is_table; exact Hm|].
  intros h g L G i j Hat HG.
  rewrite (count_neighbours_spec m h g L G i j Hat HG), (trig_offsets_table m Hm).
  rewrite count_at_moore. reflexivity.
Qed.

Lemma trig_offsets_moore_witness :
  libm_accurate table_libm /\
  trig_offsets table_libm = MOORE_OFFSETS /\
  count_neighbours table_libm blinker_loc 2 1 blinker_heap =
    count_neighbours_table blinker_loc 2 1 blinker_heap /\
  step table_libm blinker_loc blinker_heap = step_table blinker_loc blinker_heap.
Proof.
  split; [exact table_libm_accurate|].
  destruct (trig_offsets_moore table_libm table_libm_accurate) as (_ & E & Hc & Hs & _).
  split; [exact E|]. split; [apply Hc|apply Hs].
Defined.

(** The cells of the two phases of the blinker. *)
Lemma pattern_grid_blinker generation x y :
  0 <= x < 5 -> 0 <= y < 5 ->
  cell_at (pattern_grid BLINKER_ROW generation) x y =
    (if decide ((x, y) ∈ BLINKER_ROW) then FILLED else EMPTY) /\
  cell_at (pattern_grid BLINKER_COLUMN generation) x y =
    (if decide ((x, y) ∈ BLINKER_COLUMN) then FILLED else EMPTY).
Proof.
  intros Hx Hy.
  assert (x = 0 \/ x = 1 \/ x = 2 \/ x = 3 \/ x = 4) as Ex by lia.
  assert (y = 0 \/ y = 1 \/ y = 2 \/ y = 3 \/ y = 4) as Ey by lia.
  destruct Ex as [->|[->|[->|[->| ->]]]]; destruct Ey as [->|[->|[->|[->| ->]]]];
    split; vm_compute; reflexivity.
Qed.

(** C6: on a 5 by 5 grid whose only [FILLED] cells are (1,2), (2,2), (3,2),
    one [step] gives a grid whose only [FILLED] cells are (2,1), (2,2),
    (2,3), and a second [step] gives the first content again. *)
Theorem blinker_period_two (m : libm) (h : gmap positive obj) g L generation :
  libm_accurate m ->
  grid_at h g L (pattern_grid BLINKER_ROW generation) ->
  exists g1 L1 h1 g2 L2 h2,
    step m g h = (Ok g1, h1) /\
    grid_at h1 g1 L1 (pattern_grid BLINKER_COLUMN (generation + 1)) /\
    step m g1 h1 = (Ok g2, h2) /\
    grid_at h2 g2 L2 (pattern_grid BLINKER_ROW (generation + 1 + 1)) /\
    forall x y, 0 <= x < 5 -> 0 <= y < 5 ->
      cell_at (pattern_grid BLINKER_ROW generation) x y =
        (if decide ((x, y) ∈ [(1, 2); (2, 2); (3, 2)]) then FILLED else EMPTY) /\
      cell_at (pattern_grid BLINKER_COLUMN (generation + 1)) x y =
        (if decide ((x, y) ∈ [(2, 1); (2, 2); (2, 3)]) then FILLED else EMPTY) /\
      cell_at (pattern_grid BLINKER_ROW (generation + 1 + 1)) x y =
        cell_at (pattern_grid BLINKER_ROW generation) x y.
Proof.
  intros Hm Hat.
  destruct (step_spec m h g L _ Hat (pattern_grid_valid _ _))
    as (g1 & L1 & h1 & E1 & _ & Hat1 & _).
  rewrite (trig_offsets_table m Hm), blinker_step_row in Hat1.
  destruct (step_spec m h1 g1 L1 _ Hat1 (pattern_grid_valid _ _))
    as (g2 & L2 & h2 & E2 & _ & Hat2 & _).
  rewrite (trig_offsets_table m Hm), blinker_step_column in Hat2.
  exists g1, L1, h1, g2, L2, h2.
  split; [exact E1|]. split; [exact Hat1|]. split; [exact E2|]. split; [exact Hat2|].
  intros x y Hx Hy.
  split; [exact (proj1 (pattern_grid_blinker generation x y Hx Hy))|].
  split; [exact (proj2 (pattern_grid_blinker (generation + 1) x y Hx Hy))|].
  rewrite (proj1 (pattern_grid_blinker (generation + 1 + 1) x y Hx Hy)).
  rewrite (proj1 (pattern_grid_blinker generation x y Hx Hy)). reflexivity.
Qed.

Lemma blinker_period_two_witness :
  libm_accurate table_libm /\
  grid_at blinker_heap blinker_loc blinker_layout (pattern_grid BLINKER_ROW 0) /\
  exists g1 L1 h1 g2 L2 h2,
    step table_libm blinker_loc blinker_heap = (Ok g1, h1) /\
    grid_at h1 g1 L1 (pattern_grid BLINKER_COLUMN (0 + 1)) /\
    step table_libm g1 h1 = (Ok g2, h2) /\
    grid_at h2 g2 L2 (pattern_grid BLINKER_ROW (0 + 1 + 1)).
Proof.
  split; [exact table_libm_accurate|]. split; [exact blinker_grid_at|].
  destruct (blinker_period_two table_libm blinker_heap blinker_loc blinker_layout 0
              table_libm_accurate blinker_grid_at)
    as (g1 & L1 & h1 & g2 & L2 & h2 & E1 & Hat1 & E2 & Hat2 & _).
  exists g1, L1, h1, g2, L2, h2.
  split; [exact E1|]. split; [exact Hat1|]. split; [exact E2|]. exact Hat2.
Defined.

(** ** Stamping *)

(** C7: on a valid grid, [add_pattern] applied a second time with the same
    arguments succeeds and leaves the heap exactly as the first application
    left it. *)
Theorem add_pattern_idempotent (h : gmap positive obj) g L G pattern (x y : Z) :
  grid_at h g L G -> valid G ->
  exists h1,
    add_pattern g pattern x y h = (Ok tt, h1) /\
    add_pattern g pattern x y h1 = (Ok tt, h1).
Proof.
  intros Hat HG.
  destruct (add_pattern_spec pattern x y h g L G Hat HG) as (h1 & E & Hat1 & HG1).
  exists h1. split; [exact E|].
  apply (add_pattern_filled pattern x y h1 g L _ Hat1 HG1).
  intros t Hin. apply stamp_grid_filled; assumption.
Qed.

Lemma add_pattern_idempotent_witness :
  grid_at blinker_heap blinker_loc blinker_layout (pattern_grid BLINKER_ROW 0) /\
  valid (pattern_grid BLINKER_ROW 0) /\
  exists h1,
    add_pattern blinker_loc PATTERN_GLIDER (-1) 3 blinker_heap = (Ok tt, h1) /\
    add_pattern blinker_loc PATTERN_GLIDER (-1) 3 h1 = (Ok tt, h1).
Proof.
  split; [exact blinker_grid_at|]. split; [exact (pattern_grid_valid BLINKER_ROW 0)|].
  exact (add_pattern_idempotent blinker_heap blinker_loc blinker_layout
           (pattern_grid BLINKER_ROW 0) PATTERN_GLIDER (-1) 3
           blinker_grid_at (pattern_grid_valid BLINKER_ROW 0)).
Defined.

(** ** The single-cell torus *)

Lemma single_cell_at c generation x y : cell_at (MkGrid 1 1 [[c]] generation) x y = c.
Proof. unfold cell_at. cbn [g_cells g_width g_height]. rewrite !Z.mod_1_r. reflexivity. Qed.

Lemma trig_offsets_length m : length (trig_offsets m) = 8%nat.
Proof. reflexivity. Qed.

Lemma single_filter offs c generation i j :
  length (filter (fun d => cell_at (MkGrid 1 1 [[c]] generation) (i + fst d) (j + snd d) = FILLED)
                 offs) =
    if decide (c = FILLED) then length offs else 0%nat.
Proof.
  induction offs as [|d offs IH]; [destruct (decide _); reflexivity|].
  rewrite filter_cons. rewrite single_cell_at.
  destruct (decide (c = FILLED)); cbn [length]; rewrite IH; reflexivity.
Qed.

Lemma single_count offs c generation i j :
  count_at offs (MkGrid 1 1 [[c]] generation) i j =
    if decide (c = FILLED) then Z.of_nat (length offs) else 0.
Proof.
  unfold count_at.
  rewrite (count_fold_filter
             (fun d => cell_at (MkGrid 1 1 [[c]] generation) (i + fst d) (j + snd d) = FILLED)).
  rewrite single_filter. destruct (decide (c = FILLED)); reflexivity.
Qed.

Lemma single_step_grid offs c generation :
  length offs = 8%nat ->
  step_grid offs (MkGrid 1 1 [[c]] generation) =
    MkGrid 1 1 [[if decide (c = FILLED) then EMPTY else c]] (generation + 1).
Proof.
  intros Hlen. unfold step_grid. cbn [g_width g_height]. change (py_range 1) with [0].
  cbn [fold_left]. unfold rule_at. rewrite single_count, single_cell_at, Hlen.
  destruct (decide (c = FILLED)) as [Ec|Nc]; reflexivity.
Qed.

(** C8: a 1 by 1 grid can be constructed; on it every coordinate denotes
    the single cell, so the 8 iterations of the counting loop of [step]
    read that cell 8 times: the count is 8 when the cell is [FILLED] and 0
    otherwise.  [step] applies the rule to that count: a [FILLED] cell
    becomes [EMPTY], an [EMPTY] cell stays [EMPTY] (any other content is
    left as it is). *)
Theorem single_cell_grid (m : libm) (h : gmap positive obj) g L (c : list N) generation :
  grid_at h g L (MkGrid 1 1 [[c]] generation) ->
  (exists g0 L0 h0, Grid_init 1 1 h = (Ok g0, h0) /\ grid_at h0 g0 L0 (blank 1 1) /\
                    valid (blank 1 1)) /\
  (forall x y, Grid_getitem g (x, y) h = (Ok c, h)) /\
  (forall i j, count_neighbours m g i j h = (Ok (if decide (c = FILLED) then 8 else 0), h)) /\
  exists g' L' h',
    step m g h = (Ok g', h') /\
    grid_at h' g' L'
      (MkGrid 1 1 [[if decide (c = FILLED) then EMPTY else c]] (generation + 1)).
Proof.
  intros Hat. pose proof (single_valid c generation) as HG.
  split; [|split; [|split]].
  - destruct (Grid_init_spec 1 1 h) as (g0 & L0 & h0 & E & _ & Hat0 & _).
    exists g0, L0, h0. split; [exact E|]. split; [exact Hat0|]. apply blank_valid; lia.
  - intros x y. rewrite <- (single_cell_at c generation x y).
    apply (getitem_spec h g L); assumption.
  - intros i j. rewrite (count_neighbours_spec m h g L _ i j Hat HG).
    rewrite single_count, trig_offsets_length. reflexivity.
  - destruct (step_spec m h g L _ Hat HG) as (g' & L' & h' & E & _ & Hat' & _).
    rewrite single_step_grid in Hat' by apply trig_offsets_length.
    exists g', L', h'. split; [exact E|exact Hat'].
Qed.

Lemma single_cell_grid_witness :
  grid_at single_heap single_loc single_layout (MkGrid 1 1 [[FILLED]] 0) /\
  count_neighbours table_libm single_loc 0 0 single_heap = (Ok 8, single_heap) /\
  exists g' L' h',
    step table_libm single_loc single_heap = (Ok g', h') /\
    grid_at h' g' L' (MkGrid 1 1 [[EMPTY]] (0 + 1)).
Proof.
  split; [exact single_grid_at|].
  destruct (single_cell_grid table_libm single_heap single_loc single_layout FILLED 0
              single_grid_at) as (_ & _ & Hcount & Hstep).
  split; [exact (Hcount 0 0)|exact Hstep].
Defined.

(** ** Invariants *)

Lemma blank_shaped w hh : shaped (blank w hh) <-> 0 <= hh /\ (hh = 0 \/ 0 <= w).
Proof.
  unfold shaped, blank. cbn [g_cells g_width g_height]. rewrite length_replicate. split.
  - intros [Hlen Hrows]. split; [lia|].
    destruct (Z.to_nat hh) as [|k] eqn:Ek; [left; lia|]. right.
    cbn [replicate] in Hrows. apply Forall_cons in Hrows. destruct Hrows as [Hrow _].
    rewrite length_replicate in Hrow. lia.
  - intros [Hh Hw]. split; [lia|]. destruct Hw as [->|Hw]; [constructor|].
    apply Forall_replicate. rewrite length_replicate. lia.
Qed.

(** C9, as stated, fails on the code: [Grid(-3, 2)] is constructed and its
    storage is 2 rows of 0 columns while its width is -3, and reading it
    raises [IndexError]. *)
Lemma init_negative_width_misshaped :
  fst (Grid_init (-3) 2 ∅) = Ok 4%positive /\
  grid_at (snd (Grid_init (-3) 2 ∅)) 4%positive (Layout 3%positive [1%positive; 2%positive])
          (MkGrid (-3) 2 [[]; []] 0) /\
  ~ shaped (MkGrid (-3) 2 [[]; []] 0) /\
  fst (Grid_getitem 4%positive (0, 0) (snd (Grid_init (-3) 2 ∅))) = Raise IndexError.
Proof.
  split; [vm_compute; reflexivity|]. split; [|split].
  - split.
    + vm_compute. reflexivity.
    + vm_compute. reflexivity.
    + repeat constructor; vm_compute; reflexivity.
    + cbn. compute_done.
  - intros [_ Hrows]. cbn [g_cells g_width] in Hrows.
    apply Forall_cons in Hrows. destruct Hrows as [Hrow _]. cbn in Hrow. discriminate.
  - vm_compute. reflexivity.
Qed.

(** C9, amended: construction never fails, and the storage it builds has
    exactly [height] rows of exactly [width] columns precisely when
    [height >= 0] and ([height = 0] or [width >= 0]), so for all positive
    dimensions.  On a grid with positive dimensions and that shape, writing
    a cell, stamping a pattern and [step] succeed and preserve the shape,
    and no subscript is out of range: the coordinate is wrapped on both
    axes into [[0, width) x [0, height)] before it is used. *)
Theorem shape_preserved (m : libm) :
  (forall w hh (h : gmap positive obj),
     exists g0 L0 h0,
       Grid_init w hh h = (Ok g0, h0) /\ grid_at h0 g0 L0 (blank w hh) /\
       (shaped (blank w hh) <-> 0 <= hh /\ (hh = 0 \/ 0 <= w)) /\
       (0 < w -> 0 < hh -> valid (blank w hh))) /\
  (forall (h : gmap positive obj) g L G,
     grid_at h g L G -> valid G ->
     (forall x y v, exists h' G',
        Grid_setitem g (x, y) v h = (Ok tt, h') /\ grid_at h' g L G' /\ valid G' /\
        g_width G' = g_width G /\ g_height G' = g_height G) /\
     (forall pattern x y, exists h' G',
        add_pattern g pattern x y h = (Ok tt, h') /\ grid_at h' g L G' /\ valid G') /\
     (exists g' L' G' h',
        step m g h = (Ok g', h') /\ grid_at h' g' L' G' /\ valid G' /\ grid_at h' g L G) /\
     (forall x y,
        wrap (GridObj (g_width G) (g_height G) (l_data L) (g_generation G)) (x, y) h =
          (Ok (x mod g_width G, y mod g_height G), h) /\
        0 <= x mod g_width G <
          Z.of_nat (length (default [] (g_cells G !! Z.to_nat (y mod g_height G)))) /\
        0 <= y mod g_height G < Z.of_nat (length (g_cells G)))).
Proof.
  split.
  - intros w hh h.
    destruct (Grid_init_spec w hh h) as (g0 & L0 & h0 & E & _ & Hat0 & _).
    exists g0, L0, h0. split; [exact E|]. split; [exact Hat0|].
    split; [apply blank_shaped|]. intros Hw Hh. apply blank_valid; assumption.
  - intros h g L G Hat HG. split; [|split; [|split]].
    + intros x y v.
      destruct (setitem_touches h g L G x y v Hat HG) as (h' & E & Hat' & _).
      exists h', (set_cell G x y v). split; [exact E|]. split; [exact Hat'|].
      split; [apply set_cell_valid; exact HG|]. split; reflexivity.
    + intros pattern x y.
      destruct (add_pattern_spec pattern x y h g L G Hat HG) as (h' & E & Hat' & HG').
      exists h', (stamp_grid pattern x y G). auto.
    + destruct (step_spec m h g L G Hat HG) as (g' & L' & h' & E & Hsub & Hat' & _).
      destruct (step_grid_frame (trig_offsets m) G HG) as (HG' & _).
      exists g', L', (step_grid (trig_offsets m) G), h'.
      split; [exact E|]. split; [exact Hat'|]. split; [exact HG'|].
      exact (grid_at_mono _ _ _ _ _ Hsub Hat).
    + intros x y. destruct (valid_row G y HG) as (row & Erow & Hlen).
      destruct HG as (Hw & Hh & Hrows & _).
      split; [apply (wrap_ok (GridObj _ _ _ _) (x, y) h); assumption|].
      rewrite Erow. change (default [] (Some row)) with row. rewrite Hlen, Hrows.
      split; apply wrap_range; assumption.
Qed.

Lemma shape_preserved_witness :
  grid_at blinker_heap blinker_loc blinker_layout (pattern_grid BLINKER_ROW 0) /\
  valid (pattern_grid BLINKER_ROW 0) /\
  (exists h' G',
     Grid_setitem blinker_loc (-7, 12) FILLED blinker_heap = (Ok tt, h') /\
     grid_at h' blinker_loc blinker_layout G' /\ valid G') /\
  (0 < 5 /\ 0 < 5 /\ valid (blank 5 5)).
Proof.
  split; [exact blinker_grid_at|]. split; [exact (pattern_grid_valid BLINKER_ROW 0)|].
  destruct (shape_preserved table_libm) as (Hinit & Hops).
  split.
  - destruct (Hops blinker_heap blinker_loc blinker_layout
                (pattern_grid BLINKER_ROW 0) blinker_grid_at (pattern_grid_valid BLINKER_ROW 0))
      as (Hset & _).
    destruct (Hset (-7) 12 FILLED) as (h' & G' & E & Hat' & HG' & _).
    exists h', G'. split; [exact E|]. split; [exact Hat'|exact HG'].
  - split; [lia|]. split; [lia|].
    destruct (Hinit 5 5 ∅) as (g0 & L0 & h0 & _ & _ & _ & Hv). apply Hv; lia.
Defined.

(** C10: on a valid grid in which every cell is [EMPTY] or [FILLED], every
    cell of the result of [step] is [EMPTY] or [FILLED]; [add_pattern]
    keeps that too and writes nothing but [FILLED]: each cell afterwards
    is [FILLED] or holds what it held before. *)
Theorem cell_states_closed (m : libm) (h : gmap positive obj) g L G :
  grid_at h g L G -> valid G -> two_valued G ->
  (exists g' L' G' h',
     step m g h = (Ok g', h') /\ grid_at h' g' L' G' /\ two_valued G' /\
     forall x y, cell_at G' x y = EMPTY \/ cell_at G' x y = FILLED) /\
  (forall pattern x y, exists h' G',
     add_pattern g pattern x y h = (Ok tt, h') /\ grid_at h' g L G' /\ two_valued G' /\
     forall a b, cell_at G' a b = FILLED \/ cell_at G' a b = cell_at G a b).
Proof.
  intros Hat HG H2. split.
  - destruct (step_spec m h g L G Hat HG) as (g' & L' & h' & E & _ & Hat' & _).
    destruct (step_grid_frame (trig_offsets m) G HG) as (HG' & _).
    pose proof (step_grid_two_valued (trig_offsets m) G H2) as H2'.
    exists g', L', (step_grid (trig_offsets m) G), h'.
    split; [exact E|]. split; [exact Hat'|]. split; [exact H2'|].
    intros x y. destruct (valid_cell _ x y HG') as (row & Erow & _ & Ecell).
    unfold two_valued in H2'. rewrite Forall_forall in H2'.
    pose proof (H2' row (list_elem_of_lookup_2 _ _ _ Erow)) as Hrow.
    rewrite Forall_forall in Hrow. apply Hrow.
    exact (list_elem_of_lookup_2 _ _ _ Ecell).
  - intros pattern x y.
    destruct (add_pattern_spec pattern x y h g L G Hat HG) as (h' & E & Hat' & HG').
    exists h', (stamp_grid pattern x y G).
    split; [exact E|]. split; [exact Hat'|].
    split; [apply stamp_grid_two_valued; exact H2|].
    intros a b. apply stamp_grid_cells. exact HG.
Qed.

Lemma pattern_grid_two_valued pattern generation : two_valued (pattern_grid pattern generation).
Proof.
  unfold pattern_grid, with_generation, two_valued. cbn [g_cells].
  apply (stamp_grid_two_valued pattern 0 0 (blank 5 5)).
  unfold two_valued, blank. cbn [g_cells].
  apply Forall_replicate, Forall_replicate. left. reflexivity.
Qed.

Lemma cell_states_closed_witness :
  grid_at blinker_heap blinker_loc blinker_layout (pattern_grid BLINKER_ROW 0) /\
  valid (pattern_grid BLINKER_ROW 0) /\
  two_valued (pattern_grid BLINKER_ROW 0) /\
  exists g' L' G' h',
    step table_libm blinker_loc blinker_heap = (Ok g', h') /\
    grid_at h' g' L' G' /\ two_valued G'.
Proof.
  split; [exact blinker_grid_at|]. split; [exact (pattern_grid_valid BLINKER_ROW 0)|].
  split; [exact (pattern_grid_two_valued BLINKER_ROW 0)|].
  destruct (cell_states_closed table_libm blinker_heap blinker_loc blinker_layout
              (pattern_grid BLINKER_ROW 0) blinker_grid_at (pattern_grid_valid BLINKER_ROW 0)
              (pattern_grid_two_valued BLINKER_ROW 0))
    as ((g' & L' & G' & h' & E & Hat' & H2' & _) & _).
  exists g', L', G', h'. split; [exact E|]. split; [exact Hat'|exact H2'].
Defined.

(** * Further properties of the code *)

(** ** [round_out] *)

Lemma py_int_opp q : py_int (- q) = - py_int q.
Proof.
  unfold py_int. destruct q as [n d]. cbn [Qopp Qnum Qden].
  apply Z.quot_opp_l. discriminate.
Qed.

Lemma tiny_pos : (0 < tiny)%Q.
Proof. reflexivity. Qed.

Lemma round_out_cutoff n :
  round_out n =
    if Qlt_le_dec (Qabs n) tiny then 0
    else ceil (Qabs n) * py_int (n / Qabs n).
Proof.
  unfold round_out. destruct (Qlt_le_dec (Qabs n) tiny) as [Hlt|Hge]; [reflexivity|].
  destruct (Qeq_bool n 0) eqn:E; [|reflexivity].
  exfalso. apply Qeq_bool_iff in E. rewrite E in Hge.
  exact (Qlt_not_le _ _ tiny_pos Hge).
Qed.

Lemma Qabs_nonzero n : (tiny <= Qabs n)%Q -> ~ (Qabs n == 0)%Q.
Proof.
  intros Hge E. rewrite E in Hge. exact (Qlt_not_le _ _ tiny_pos Hge).
Qed.

Lemma ceil_pos q : (0 < q)%Q -> 0 < ceil q.
Proof.
  intros Hq. unfold ceil. rewrite Zlt_Qlt. eapply Qlt_le_trans; [exact Hq|apply Qle_ceiling].
Qed.

(** Above the cut-off the result is [ceil(|n|)] with the sign of [n]. *)
Lemma round_out_above n :
  (tiny <= Qabs n)%Q ->
  round_out n = if Qlt_le_dec 0 n then ceil (Qabs n) else - ceil (Qabs n).
Proof.
  intros Hge. rewrite round_out_cutoff.
  destruct (Qlt_le_dec (Qabs n) tiny) as [Hlt|_].
  { exfalso. eapply Qlt_not_le; eauto. }
  pose proof (Qabs_nonzero n Hge) as Hnz.
  destruct (Qlt_le_dec 0 n) as [Hpos|Hneg].
  - rewrite (py_int_one (n / Qabs n)); [lia|].
    rewrite (Qabs_pos n) by (apply Qlt_le_weak; exact Hpos). field.
    intros E. rewrite E in Hpos. discriminate.
  - rewrite (py_int_minus_one (n / Qabs n)); [lia|].
    assert (~ n == 0)%Q as Hn0.
    { intros E. apply Hnz. rewrite E. reflexivity. }
    rewrite (Qabs_neg n) by exact Hneg. field. exact Hn0.
Qed.

(** X1: [round_out] is odd. *)
Theorem round_out_odd (n : Q) : round_out (- n) = - round_out n.
Proof.
  rewrite !round_out_cutoff.
  assert (Qabs (- n) == Qabs n)%Q as Habs by apply Qabs_opp.
  destruct (Qlt_le_dec (Qabs (- n)) tiny) as [H1|H1];
    destruct (Qlt_le_dec (Qabs n) tiny) as [H2|H2].
  - reflexivity.
  - exfalso. rewrite Habs in H1. eapply Qlt_not_le; eauto.
  - exfalso. rewrite Habs in H1. eapply Qlt_not_le; eauto.
  - pose proof (Qabs_nonzero n H2) as Hnz.
    assert (ceil (Qabs (- n)) = ceil (Qabs n)) as ->.
    { unfold ceil. apply Qceiling_comp. exact Habs. }
    destruct (Qlt_le_dec 0 n) as [Hpos|Hneg].
    + rewrite (py_int_one (n / Qabs n)), (py_int_minus_one (- n / Qabs (- n))); [lia| |].
      * rewrite Habs. rewrite (Qabs_pos n) by (apply Qlt_le_weak; exact Hpos). field.
        intros E. rewrite E in Hpos. discriminate.
      * rewrite (Qabs_pos n) by (apply Qlt_le_weak; exact Hpos). field.
        intros E. rewrite E in Hpos. discriminate.
    + assert (~ n == 0)%Q as Hn0 by (intros E; apply Hnz; rewrite E; reflexivity).
      rewrite (py_int_minus_one (n / Qabs n)), (py_int_one (- n / Qabs (- n))); [lia| |].
      * rewrite Habs. rewrite (Qabs_neg n) by exact Hneg. field. exact Hn0.
      * rewrite (Qabs_neg n) by exact Hneg. field. exact Hn0.
Qed.

(** The cut-off is the float, not the decimal fraction: a ten billionth
    itself lies below it and is rounded to zero. *)
Lemma round_out_ten_billionth :
  (1 # 10000000000 < tiny)%Q /\ round_out (1 # 10000000000) = 0.
Proof. split; reflexivity. Qed.

(** X2: the result is zero exactly below the cut-off, the binary64 value
    of [10**-10]. *)
Theorem round_out_zero_iff (n : Q) : round_out n = 0 <-> (Qabs n < tiny)%Q.
Proof.
  split; [|apply round_out_zero].
  intros E. destruct (Qlt_le_dec (Qabs n) tiny) as [Hlt|Hge]; [exact Hlt|].
  exfalso. rewrite (round_out_above n Hge) in E.
  assert (0 < Qabs n)%Q as Hpos.
  { eapply Qlt_le_trans; [exact tiny_pos|exact Hge]. }
  pose proof (ceil_pos _ Hpos). destruct (Qlt_le_dec 0 n); lia.
Qed.

(** X3: at or above the cut-off, the binary64 value of [10**-10],
    [round_out] rounds away from zero: a positive value goes up to the next
    integer, a negative one down. *)
Theorem round_out_away_from_zero (n : Q) :
  (tiny <= Qabs n)%Q ->
  (0 < n -> round_out n = Qceiling n)%Q /\
  (n < 0 -> round_out n = Qfloor n)%Q /\
  (Qabs n <= inject_Z (Z.abs (round_out n)))%Q /\
  (inject_Z (Z.abs (round_out n)) < Qabs n + 1)%Q.
Proof.
  intros Hge. rewrite (round_out_above n Hge).
  assert (0 < Qabs n)%Q as Hpos.
  { eapply Qlt_le_trans; [exact tiny_pos|exact Hge]. }
  pose proof (ceil_pos _ Hpos) as Hc.
  assert (Z.abs (if Qlt_le_dec 0 n then ceil (Qabs n) else - ceil (Qabs n)) = ceil (Qabs n)) as Eabs.
  { destruct (Qlt_le_dec 0 n); lia. }
  split; [|split; [|split]].
  - intros Hn. destruct (Qlt_le_dec 0 n) as [_|Hle].
    + unfold ceil. apply Qceiling_comp. apply Qabs_pos. apply Qlt_le_weak. exact Hn.
    + exfalso. eapply Qlt_not_le; eauto.
  - intros Hn. destruct (Qlt_le_dec 0 n) as [Hp|Hle].
    + exfalso. eapply Qlt_irrefl. eapply Qlt_trans; eauto.
    + unfold ceil, Qceiling. rewrite Z.opp_involutive. apply Qfloor_comp.
      rewrite (Qabs_neg n) by exact Hle. apply Qopp_involutive.
  - rewrite Eabs. apply Qle_ceiling.
  - rewrite Eabs. unfold ceil.
    pose proof (Qceiling_lt (Qabs n)) as Hlt.
    replace (Qceiling (Qabs n)) with (Qceiling (Qabs n) - 1 + 1) by lia.
    rewrite inject_Z_plus. change (inject_Z 1) with 1%Q.
    apply Qplus_lt_l. exact Hlt.
Qed.

Lemma round_out_away_from_zero_witness :
  (tiny <= Qabs (-7 # 2))%Q /\ round_out (-7 # 2) = Qfloor (-7 # 2) /\ round_out (-7 # 2) = -4.
Proof.
  assert (tiny <= Qabs (-7 # 2))%Q as H by (unfold tiny; discriminate).
  split; [exact H|].
  destruct (round_out_away_from_zero (-7 # 2) H) as (_ & Hneg & _).
  split; [apply Hneg; reflexivity|].
  rewrite (Hneg ltac:(reflexivity)). reflexivity.
Defined.

(** X4: integers are fixed points. *)
Theorem round_out_integer (z : Z) : round_out (inject_Z z) = z.
Proof.
  destruct (Z.eq_dec z 0) as [->|Hz]; [reflexivity|].
  assert (tiny <= Qabs (inject_Z z))%Q as Hge.
  { change (Qabs (inject_Z z)) with (inject_Z (Z.abs z)).
    apply Qle_trans with (inject_Z 1); [unfold tiny; discriminate|].
    rewrite <- Zle_Qle. lia. }
  rewrite (round_out_above _ Hge).
  change (Qabs (inject_Z z)) with (inject_Z (Z.abs z)). unfold ceil. rewrite Qceiling_Z.
  destruct (Qlt_le_dec 0 (inject_Z z)) as [Hp|Hn].
  - change 0%Q with (inject_Z 0) in Hp. rewrite <- Zlt_Qlt in Hp. lia.
  - change 0%Q with (inject_Z 0) in Hn. rewrite <- Zle_Qle in Hn. lia.
Qed.

(** ** Reading and writing cells *)

Lemma blank_cell w hh x y : 0 < w -> 0 < hh -> cell_at (blank w hh) x y = EMPTY.
Proof.
  intros Hw Hh. unfold cell_at, blank. cbn [g_cells g_width g_height].
  pose proof (wrap_range x _ Hw) as Hx. pose proof (wrap_range y _ Hh) as Hy.
  rewrite lookup_replicate_2 by (revert Hy; generalize (y mod hh); intros; lia).
  cbn. rewrite lookup_replicate_2 by (revert Hx; generalize (x mod w); intros; lia).
  reflexivity.
Qed.

(** X5: every cell of a grid just constructed with positive dimensions
    reads [EMPTY], at any integer coordinate. *)
Theorem fresh_grid_reads_empty (w hh : Z) (h : gmap positive obj) :
  0 < w -> 0 < hh ->
  exists g h',
    Grid_init w hh h = (Ok g, h') /\
    forall x y, Grid_getitem g (x, y) h' = (Ok EMPTY, h').
Proof.
  intros Hw Hh.
  destruct (Grid_init_spec w hh h) as (g & L & h' & E & _ & Hat & _).
  exists g, h'. split; [exact E|]. intros x y.
  rewrite <- (blank_cell w hh x y Hw Hh).
  apply (getitem_spec h' g L); [exact Hat|apply blank_valid; assumption].
Qed.

Lemma fresh_grid_reads_empty_witness :
  0 < 3 /\ 0 < 2 /\
  exists g h', Grid_init 3 2 ∅ = (Ok g, h') /\ Grid_getitem g (-5, 7) h' = (Ok EMPTY, h').
Proof.
  split; [lia|]. split; [lia|].
  destruct (fresh_grid_reads_empty 3 2 ∅ ltac:(lia) ltac:(lia)) as (g & h' & E & Hget).
  exists g, h'. split; [exact E|apply Hget].
Defined.

(** X6: a write followed by reads.  After [grid[x, y] = v] on a valid grid,
    every coordinate that wraps to the same cell reads [v], and every
    other coordinate reads what it read before. *)
Theorem setitem_then_getitem (h : gmap positive obj) g L G (x y : Z) (v : list N) :
  grid_at h g L G -> valid G ->
  exists h',
    Grid_setitem g (x, y) v h = (Ok tt, h') /\
    forall a b,
      (a mod g_width G = x mod g_width G /\ b mod g_height G = y mod g_height G ->
         Grid_getitem g (a, b) h' = (Ok v, h')) /\
      (~ (a mod g_width G = x mod g_width G /\ b mod g_height G = y mod g_height G) ->
         exists c, Grid_getitem g (a, b) h = (Ok c, h) /\
                   Grid_getitem g (a, b) h' = (Ok c, h')).
Proof.
  intros Hat HG.
  destruct (setitem_touches h g L G x y v Hat HG) as (h' & E & Hat' & _).
  pose proof (set_cell_valid G x y v HG) as HG'.
  exists h'. split; [exact E|]. intros a b.
  pose proof (getitem_spec h' g L _ a b Hat' HG') as Hget.
  rewrite (cell_at_set_cell G x y v a b HG) in Hget.
  split; intros Hc.
  - rewrite decide_True in Hget by exact Hc. exact Hget.
  - rewrite decide_False in Hget by exact Hc.
    exists (cell_at G a b). split; [|exact Hget].
    apply (getitem_spec h g L); assumption.
Qed.

Lemma setitem_then_getitem_witness :
  grid_at blinker_heap blinker_loc blinker_layout (pattern_grid BLINKER_ROW 0) /\
  valid (pattern_grid BLINKER_ROW 0) /\
  exists h',
    Grid_setitem blinker_loc (6, -1) FILLED blinker_heap = (Ok tt, h') /\
    Grid_getitem blinker_loc (1, 4) h' = (Ok FILLED, h').
Proof.
  split; [exact blinker_grid_at|]. split; [exact (pattern_grid_valid BLINKER_ROW 0)|].
  destruct (setitem_then_getitem blinker_heap blinker_loc blinker_layout
              (pattern_grid BLINKER_ROW 0) 6 (-1) FILLED
              blinker_grid_at (pattern_grid_valid BLINKER_ROW 0)) as (h' & E & Hget).
  exists h'. split; [exact E|]. apply (Hget 1 4). split; reflexivity.
Defined.

(** Two valid grids with the same attributes and the same cells are equal. *)
Lemma grid_ext G1 G2 :
  valid G1 -> valid G2 ->
  g_width G1 = g_width G2 -> g_height G1 = g_height G2 ->
  g_generation G1 = g_generation G2 ->
  (forall x y, 0 <= x < g_width G1 -> 0 <= y < g_height G1 ->
     cell_at G1 x y = cell_at G2 x y) ->
  G1 = G2.
Proof.
  intros HG1 HG2 Hw Hh Hgen Hcells.
  destruct G1 as [w1 h1 c1 n1], G2 as [w2 h2 c2 n2]. cbn in Hw, Hh, Hgen. subst w2 h2 n2.
  f_equal. cbn [g_width g_height] in Hcells.
  pose proof HG1 as (Hwpos & Hhpos & Hlen1 & Hrows1).
  pose proof HG2 as (_ & _ & Hlen2 & Hrows2). cbn in *.
  apply list_eq_same_length with (n := length c1); [lia|reflexivity|].
  intros i r1 r2 Hi E1 E2.
  pose proof (Forall_lookup_1 _ _ _ _ Hrows1 E1) as Hr1.
  pose proof (Forall_lookup_1 _ _ _ _ Hrows2 E2) as Hr2. cbn in Hr1, Hr2.
  apply list_eq_same_length with (n := length r1); [lia|reflexivity|].
  intros j x1 x2 Hj Ex1 Ex2.
  specialize (Hcells (Z.of_nat j) (Z.of_nat i) ltac:(lia) ltac:(lia)).
  unfold cell_at in Hcells. cbn [g_cells g_width g_height] in Hcells.
  rewrite !Z.mod_small, !Nat2Z.id in Hcells by lia.
  rewrite E1, E2 in Hcells. cbn in Hcells. rewrite Ex1, Ex2 in Hcells. exact Hcells.
Qed.

Lemma same_outside_refl L h : same_outside L h h.
Proof. intros l _. reflexivity. Qed.

Lemma same_outside_trans L h1 h2 h3 :
  same_outside L h1 h2 -> same_outside L h2 h3 -> same_outside L h1 h3.
Proof. intros H12 H23 l Hl. rewrite (H23 l Hl). apply H12. exact Hl. Qed.

Lemma touches_same_outside L h h' : touches L h h' -> same_outside L h h'.
Proof.
  intros [->|(r & o & Hin & ->)] l Hl; [reflexivity|].
  apply lookup_insert_ne. intros ->. contradiction.
Qed.

(** The heap is determined by the content of the grid and by what lies
    outside its rows. *)
Lemma heap_eq (h h1 h2 : gmap positive obj) g L G :
  grid_at h1 g L G -> grid_at h2 g L G ->
  same_outside L h h1 -> same_outside L h h2 -> h1 = h2.
Proof.
  intros Hat1 Hat2 Ho1 Ho2. apply map_eq. intros l.
  destruct (decide (l ∈ l_rows L)) as [Hin|Hnin].
  - apply list_elem_of_lookup in Hin. destruct Hin as [k Ek].
    destruct (Forall2_lookup_l _ _ _ _ _ (at_rows _ _ _ _ Hat1) Ek) as (row1 & E1 & H1).
    destruct (Forall2_lookup_l _ _ _ _ _ (at_rows _ _ _ _ Hat2) Ek) as (row2 & E2 & H2).
    rewrite E1 in E2. inversion E2; subst row2. rewrite H1, H2. reflexivity.
  - rewrite (Ho1 l Hnin), (Ho2 l Hnin). reflexivity.
Qed.

Lemma setitem_outside (h : gmap positive obj) g L G x y v :
  grid_at h g L G -> valid G ->
  exists h', Grid_setitem g (x, y) v h = (Ok tt, h') /\
             grid_at h' g L (set_cell G x y v) /\ same_outside L h h'.
Proof.
  intros Hat HG.
  destruct (setitem_touches h g L G x y v Hat HG) as (h' & E & Hat' & Ht).
  exists h'. split; [exact E|]. split; [exact Hat'|]. apply touches_same_outside. exact Ht.
Qed.

Lemma set_cell_overwrite G x y a b v1 v2 :
  valid G ->
  a mod g_width G = x mod g_width G -> b mod g_height G = y mod g_height G ->
  set_cell (set_cell G x y v1) a b v2 = set_cell G x y v2.
Proof.
  intros HG Ea Eb.
  pose proof (set_cell_valid G x y v1 HG) as H1.
  apply grid_ext; try reflexivity.
  - apply set_cell_valid. exact H1.
  - apply set_cell_valid. exact HG.
  - intros c d _ _. rewrite (cell_at_set_cell _ a b v2 c d H1).
    rewrite (cell_at_set_cell G x y v2 c d HG), (cell_at_set_cell G x y v1 c d HG).
    cbn [set_cell g_width g_height]. rewrite Ea, Eb.
    destruct (decide _); reflexivity.
Qed.

Lemma set_cell_commute G x1 y1 v1 x2 y2 v2 :
  valid G ->
  ~ (x1 mod g_width G = x2 mod g_width G /\ y1 mod g_height G = y2 mod g_height G) ->
  set_cell (set_cell G x1 y1 v1) x2 y2 v2 = set_cell (set_cell G x2 y2 v2) x1 y1 v1.
Proof.
  intros HG Hne.
  pose proof (set_cell_valid G x1 y1 v1 HG) as H1.
  pose proof (set_cell_valid G x2 y2 v2 HG) as H2.
  apply grid_ext; try reflexivity.
  - apply set_cell_valid. exact H1.
  - apply set_cell_valid. exact H2.
  - intros c d _ _.
    rewrite (cell_at_set_cell _ x2 y2 v2 c d H1), (cell_at_set_cell _ x1 y1 v1 c d H2).
    rewrite (cell_at_set_cell G x1 y1 v1 c d HG), (cell_at_set_cell G x2 y2 v2 c d HG).
    cbn [set_cell g_width g_height].
    destruct (decide (c mod g_width G = x2 mod g_width G /\ d mod g_height G = y2 mod g_height G))
      as [[E1 E2]|N2];
    destruct (decide (c mod g_width G = x1 mod g_width G /\ d mod g_height G = y1 mod g_height G))
      as [[E3 E4]|N1]; try reflexivity.
    exfalso. apply Hne. split; congruence.
Qed.

Lemma two_writes (h : gmap positive obj) g L G x1 y1 v1 x2 y2 v2 :
  grid_at h g L G -> valid G ->
  exists h',
    (Grid_setitem g (x1, y1) v1 >> Grid_setitem g (x2, y2) v2) h = (Ok tt, h') /\
    grid_at h' g L (set_cell (set_cell G x1 y1 v1) x2 y2 v2) /\ same_outside L h h'.
Proof.
  intros Hat HG.
  destruct (setitem_outside h g L G x1 y1 v1 Hat HG) as (h1 & E1 & Hat1 & Ho1).
  destruct (setitem_outside h1 g L _ x2 y2 v2 Hat1 (set_cell_valid _ _ _ _ HG))
    as (h2 & E2 & Hat2 & Ho2).
  exists h2. split; [|split; [exact Hat2|eapply same_outside_trans; eauto]].
  rewrite (bind_ok _ _ _ _ _ E1). exact E2.
Qed.

(** X7: the last write wins.  Two writes to coordinates that wrap to the
    same cell leave the heap as the second write alone would. *)
Theorem setitem_overwrite (h : gmap positive obj) g L G (x y a b : Z) (v1 v2 : list N) :
  grid_at h g L G -> valid G ->
  a mod g_width G = x mod g_width G -> b mod g_height G = y mod g_height G ->
  (Grid_setitem g (x, y) v1 >> Grid_setitem g (a, b) v2) h = Grid_setitem g (x, y) v2 h.
Proof.
  intros Hat HG Ea Eb.
  destruct (two_writes h g L G x y v1 a b v2 Hat HG) as (h2 & E2 & Hat2 & Ho2).
  destruct (setitem_outside h g L G x y v2 Hat HG) as (h1 & E1 & Hat1 & Ho1).
  rewrite E1, E2. f_equal.
  rewrite (set_cell_overwrite G x y a b v1 v2 HG Ea Eb) in Hat2.
  exact (heap_eq h h2 h1 g L _ Hat2 Hat1 Ho2 Ho1).
Qed.

Lemma setitem_overwrite_witness :
  grid_at blinker_heap blinker_loc blinker_layout (pattern_grid BLINKER_ROW 0) /\
  valid (pattern_grid BLINKER_ROW 0) /\
  (Grid_setitem blinker_loc (1, 1) FILLED >> Grid_setitem blinker_loc (6, -4) EMPTY) blinker_heap =
    Grid_setitem blinker_loc (1, 1) EMPTY blinker_heap.
Proof.
  split; [exact blinker_grid_at|]. split; [exact (pattern_grid_valid BLINKER_ROW 0)|].
  apply (setitem_overwrite blinker_heap blinker_loc blinker_layout (pattern_grid BLINKER_ROW 0));
    [exact blinker_grid_at|exact (pattern_grid_valid BLINKER_ROW 0)|reflexivity|reflexivity].
Defined.

(** X8: writes to different cells commute: either order leaves the same
    heap. *)
Theorem setitem_commute (h : gmap positive obj) g L G (x1 y1 x2 y2 : Z) (v1 v2 : list N) :
  grid_at h g L G -> valid G ->
  ~ (x1 mod g_width G = x2 mod g_width G /\ y1 mod g_height G = y2 mod g_height G) ->
  (Grid_setitem g (x1, y1) v1 >> Grid_setitem g (x2, y2) v2) h =
  (Grid_setitem g (x2, y2) v2 >> Grid_setitem g (x1, y1) v1) h.
Proof.
  intros Hat HG Hne.
  destruct (two_writes h g L G x1 y1 v1 x2 y2 v2 Hat HG) as (ha & Ea & Hata & Hoa).
  destruct (two_writes h g L G x2 y2 v2 x1 y1 v1 Hat HG) as (hb & Eb & Hatb & Hob).
  rewrite Ea, Eb. f_equal.
  rewrite (set_cell_commute G x1 y1 v1 x2 y2 v2 HG Hne) in Hata.
  exact (heap_eq h ha hb g L _ Hata Hatb Hoa Hob).
Qed.

Lemma setitem_commute_witness :
  grid_at blinker_heap blinker_loc blinker_layout (pattern_grid BLINKER_ROW 0) /\
  valid (pattern_grid BLINKER_ROW 0) /\
  (Grid_setitem blinker_loc (1, 1) FILLED >> Grid_setitem blinker_loc (1, 2) EMPTY) blinker_heap =
  (Grid_setitem blinker_loc (1, 2) EMPTY >> Grid_setitem blinker_loc (1, 1) FILLED) blinker_heap.
Proof.
  split; [exact blinker_grid_at|]. split; [exact (pattern_grid_valid BLINKER_ROW 0)|].
  apply (setitem_commute blinker_heap blinker_loc blinker_layout (pattern_grid BLINKER_ROW 0));
    [exact blinker_grid_at|exact (pattern_grid_valid BLINKER_ROW 0)|].
  intros [_ E]. vm_compute in E. discriminate.
Defined.

(** ** Grids with a dimension that is not positive *)

Lemma bind_raise {A B} (m : M A) (f : A -> M B) h e h' :
  m h = (Raise e, h') -> bind m f h = (Raise e, h').
Proof. intros E. unfold bind. rewrite E. reflexivity. Qed.

Lemma py_range_nonpos n : n <= 0 -> py_range n = [].
Proof. intros Hn. unfold py_range. replace (Z.to_nat n) with 0%nat by lia. reflexivity. Qed.

Lemma py_index_nil {A} i (h : gmap positive obj) :
  py_index (@nil A) i h = (Raise IndexError, h).
Proof.
  unfold py_index, norm_index. cbn [length].
  destruct (decide (0 <= i < Z.of_nat 0)); [lia|].
  destruct (decide (- Z.of_nat 0 <= i < 0)); [lia|]. reflexivity.
Qed.

Lemma norm_index_nil {A} i : norm_index (@nil A) i = None.
Proof.
  unfold norm_index. cbn [length].
  destruct (decide (0 <= i < Z.of_nat 0)); [lia|].
  destruct (decide (- Z.of_nat 0 <= i < 0)); [lia|]. reflexivity.
Qed.

Lemma wrap_zero g t (h : gmap positive obj) :
  width g = 0 \/ height g = 0 -> wrap g t h = (Raise ZeroDivisionError, h).
Proof.
  intros Hz. unfold wrap, bind, py_mod.
  destruct (decide (width g = 0)) as [_|Hw]; [reflexivity|].
  destruct (decide (height g = 0)) as [_|Hh]; [reflexivity|]. destruct Hz; contradiction.
Qed.

Lemma wrap_nonzero g t (h : gmap positive obj) :
  width g <> 0 -> height g <> 0 ->
  wrap g t h = (Ok (fst t mod width g, snd t mod height g), h).
Proof.
  intros Hw Hh. unfold wrap.
  rewrite (bind_ok _ _ _ _ _ (py_mod_ok _ _ _ Hw)).
  rewrite (bind_ok _ _ _ _ _ (py_mod_ok _ _ _ Hh)). reflexivity.
Qed.

Lemma degenerate_rows (h : gmap positive obj) g L w hh y :
  grid_at h g L (blank w hh) -> w <> 0 -> hh <> 0 -> w <= 0 \/ hh <= 0 ->
  py_index (l_rows L) (y mod hh) h = (Raise IndexError, h) \/
  exists r, py_index (l_rows L) (y mod hh) h = (Ok r, h) /\ h !! r = Some (ORow []).
Proof.
  intros [_ _ Hrows _] Hw Hh Hdeg. cbn [blank g_cells] in Hrows.
  destruct (Z_lt_le_dec hh 0) as [Hneg|Hpos].
  - left. replace (Z.to_nat hh) with 0%nat in Hrows by lia. cbn in Hrows.
    inversion Hrows as [El|]; subst. apply py_index_nil.
  - right. assert (0 < hh) as Hhpos by lia.
    pose proof (wrap_range y _ Hhpos) as Hy.
    assert (replicate (Z.to_nat hh) (replicate (Z.to_nat w) EMPTY) !! Z.to_nat (y mod hh)
            = Some []) as Erow.
    { replace (Z.to_nat w) with 0%nat by lia. apply lookup_replicate_2.
      revert Hy. generalize (y mod hh). intros; lia. }
    destruct (Forall2_lookup_r _ _ _ _ _ Hrows Erow) as (r & Er & Hr).
    exists r. split; [|exact Hr]. exact (py_index_ok _ _ _ _ (proj1 Hy) Er).
Qed.

Lemma degenerate_getitem (h : gmap positive obj) g L w hh x y :
  grid_at h g L (blank w hh) -> w <= 0 \/ hh <= 0 ->
  Grid_getitem g (x, y) h = (Raise (access_error w hh), h).
Proof.
  intros Hat Hdeg. pose proof Hat as [Hobj Hdata _ _].
  cbn [blank g_width g_height g_generation] in Hobj.
  unfold access_error, Grid_getitem.
  rewrite (bind_ok _ _ _ _ _ (load_grid_ok _ _ _ Hobj)).
  destruct (decide (w = 0 \/ hh = 0)) as [Hz|Hnz].
  - apply bind_raise. apply (wrap_zero (GridObj _ _ _ _) (x, y) h). exact Hz.
  - assert (w <> 0) as Hw by (intros ->; apply Hnz; left; reflexivity).
    assert (hh <> 0) as Hh by (intros ->; apply Hnz; right; reflexivity).
    rewrite (bind_ok _ _ _ _ _ (wrap_nonzero (GridObj _ _ _ _) (x, y) h Hw Hh)).
    cbn [fst snd data width height].
    rewrite (bind_ok _ _ _ _ _ (load_rows_ok _ _ _ Hdata)).
    destruct (degenerate_rows h g L w hh y Hat Hw Hh Hdeg) as [E|(r & E & Hr)].
    + apply bind_raise. exact E.
    + rewrite (bind_ok _ _ _ _ _ E). rewrite (bind_ok _ _ _ _ _ (load_row_ok _ _ _ Hr)).
      apply py_index_nil.
Qed.

Lemma degenerate_setitem (h : gmap positive obj) g L w hh x y v :
  grid_at h g L (blank w hh) -> w <= 0 \/ hh <= 0 ->
  Grid_setitem g (x, y) v h = (Raise (access_error w hh), h).
Proof.
  intros Hat Hdeg. pose proof Hat as [Hobj Hdata _ _].
  cbn [blank g_width g_height g_generation] in Hobj.
  unfold access_error, Grid_setitem.
  rewrite (bind_ok _ _ _ _ _ (load_grid_ok _ _ _ Hobj)).
  destruct (decide (w = 0 \/ hh = 0)) as [Hz|Hnz].
  - apply bind_raise. apply (wrap_zero (GridObj _ _ _ _) (x, y) h). exact Hz.
  - assert (w <> 0) as Hw by (intros ->; apply Hnz; left; reflexivity).
    assert (hh <> 0) as Hh by (intros ->; apply Hnz; right; reflexivity).
    rewrite (bind_ok _ _ _ _ _ (wrap_nonzero (GridObj _ _ _ _) (x, y) h Hw Hh)).
    cbn [fst snd data width height].
    rewrite (bind_ok _ _ _ _ _ (load_rows_ok _ _ _ Hdata)).
    destruct (degenerate_rows h g L w hh y Hat Hw Hh Hdeg) as [E|(r & E & Hr)].
    + apply bind_raise. exact E.
    + rewrite (bind_ok _ _ _ _ _ E). rewrite (bind_ok _ _ _ _ _ (load_row_ok _ _ _ Hr)).
      rewrite norm_index_nil. reflexivity.
Qed.

(** X9: on a grid constructed with a width or height that is not positive,
    every read and every write raises, and leaves the heap as it is: the
    exception is [ZeroDivisionError] when a dimension is zero and
    [IndexError] otherwise. *)
Theorem degenerate_grid_access_raises (w hh : Z) (h : gmap positive obj) :
  w <= 0 \/ hh <= 0 ->
  exists g h',
    Grid_init w hh h = (Ok g, h') /\
    forall x y,
      Grid_getitem g (x, y) h' =
        (Raise (if decide (w = 0 \/ hh = 0) then ZeroDivisionError else IndexError), h') /\
      forall v, Grid_setitem g (x, y) v h' =
        (Raise (if decide (w = 0 \/ hh = 0) then ZeroDivisionError else IndexError), h').
Proof.
  intros Hdeg.
  destruct (Grid_init_spec w hh h) as (g & L & h' & E & _ & Hat & _).
  exists g, h'. split; [exact E|]. intros x y.
  split; [exact (degenerate_getitem h' g L w hh x y Hat Hdeg)|].
  intros v. exact (degenerate_setitem h' g L w hh x y v Hat Hdeg).
Qed.

Lemma degenerate_grid_access_raises_witness :
  (-3 <= 0 \/ 2 <= 0) /\
  exists g h',
    Grid_init (-3) 2 ∅ = (Ok g, h') /\
    Grid_getitem g (0, 0) h' = (Raise IndexError, h').
Proof.
  split; [left; lia|].
  destruct (degenerate_grid_access_raises (-3) 2 ∅ ltac:(left; lia)) as (g & h' & E & Hacc).
  exists g, h'. split; [exact E|]. exact (proj1 (Hacc 0 0)).
Defined.

Lemma for_skip {A} (l : list A) (body : A -> M unit) (h : gmap positive obj) :
  (forall a, a ∈ l -> body a h = (Ok tt, h)) -> for_ l body h = (Ok tt, h).
Proof.
  induction l as [|a l IH]; intros Hbody; [reflexivity|].
  cbn [for_]. rewrite (bind_ok _ _ _ _ _ (Hbody a ltac:(left))).
  apply IH. intros a' Hin. apply Hbody. right. exact Hin.
Qed.

(** X10: [step] on a grid one of whose dimensions is not positive never
    raises: its loops read no cell, and the result is a copy of the input
    with the generation advanced, the input being left as it was. *)
Theorem step_degenerate (m : libm) (h : gmap positive obj) g L G :
  grid_at h g L G -> g_width G <= 0 \/ g_height G <= 0 ->
  exists g' L' h',
    step m g h = (Ok g', h') /\
    h ⊆ h' /\
    grid_at h' g' L' (bump G) /\
    Forall (fun l => h !! l = None) (storage g' L').
Proof.
  intros Hat Hdeg.
  destruct (deepcopy_spec h g L G Hat) as (next & L' & h1 & Ecopy & Hsub1 & Hnext1 & Hnew).
  destruct (bump_generation_spec h1 next L' G Hnext1) as (h2 & Ebump & Hnext2 & Eh2).
  assert (h ⊆ h2) as Hsub2.
  { rewrite Eh2. apply insert_subseteq_r; [|exact Hsub1].
    rewrite Forall_forall in Hnew. apply Hnew. left. }
  pose proof (grid_at_mono _ _ _ _ _ Hsub2 Hat) as Hat2.
  exists next, L', h2. split; [|split; [exact Hsub2|split; [exact Hnext2|exact Hnew]]].
  unfold step. rewrite (bind_ok _ _ _ _ _ Ecopy). rewrite (bind_ok _ _ _ _ _ Ebump).
  unfold bind at 1.
  rewrite (bind_ok _ _ _ _ _ (load_grid_ok _ _ _ (at_obj _ _ _ _ Hat2))). cbn [width].
  rewrite for_skip; [reflexivity|].
  intros i Hi.
  rewrite (bind_ok _ _ _ _ _ (load_grid_ok _ _ _ (at_obj _ _ _ _ Hat2))). cbn [height].
  destruct Hdeg as [Hw|Hh].
  - rewrite (py_range_nonpos _ Hw) in Hi. apply elem_of_nil in Hi. contradiction.
  - rewrite (py_range_nonpos _ Hh). reflexivity.
Qed.

Lemma step_degenerate_witness :
  exists g0 L0 h0,
    Grid_init 4 0 ∅ = (Ok g0, h0) /\ grid_at h0 g0 L0 (blank 4 0) /\
    (g_width (blank 4 0) <= 0 \/ g_height (blank 4 0) <= 0) /\
    exists g' L' h',
      step table_libm g0 h0 = (Ok g', h') /\ grid_at h' g' L' (bump (blank 4 0)).
Proof.
  destruct (Grid_init_spec 4 0 ∅) as (g0 & L0 & h0 & E & _ & Hat & _).
  exists g0, L0, h0. split; [exact E|]. split; [exact Hat|].
  assert (g_width (blank 4 0) <= 0 \/ g_height (blank 4 0) <= 0) as Hdeg by (right; cbn; lia).
  split; [exact Hdeg|].
  destruct (step_degenerate table_libm h0 g0 L0 (blank 4 0) Hat Hdeg)
    as (g' & L' & h' & Es & _ & Hat' & _).
  exists g', L', h'. split; [exact Es|exact Hat'].
Defined.

(** X11: the seeding of the main program on dimensions that are not both
    positive raises at its first write, after the grid is constructed and
    before anything is printed. *)
Theorem main_seed_degenerate (w hh : Z) (h : gmap positive obj) :
  w <= 0 \/ hh <= 0 ->
  exists g h',
    Grid_init w hh h = (Ok g, h') /\
    main_seed w hh h =
      (Raise (if decide (w = 0 \/ hh = 0) then ZeroDivisionError else IndexError), h').
Proof.
  intros Hdeg.
  destruct (Grid_init_spec w hh h) as (g & L & h' & E & _ & Hat & _).
  exists g, h'. split; [exact E|].
  unfold main_seed. rewrite (bind_ok _ _ _ _ _ E).
  apply bind_raise. unfold add_pattern, PATTERN_BLOCK. cbn [for_].
  apply bind_raise.
  exact (degenerate_setitem h' g L w hh _ _ FILLED Hat Hdeg).
Qed.

Lemma main_seed_degenerate_witness :
  (0 <= 0 \/ 10 <= 0) /\
  exists h', main_seed 0 10 ∅ = (Raise ZeroDivisionError, h').
Proof.
  split; [left; lia|].
  destruct (main_seed_degenerate 0 10 ∅ ltac:(left; lia)) as (g & h' & _ & E).
  exists h'. exact E.
Defined.

(** ** Whole-grid behaviour of [step] *)

Lemma fold_left_fixed {A S} (f : S -> A -> S) l s :
  (forall a, a ∈ l -> f s a = s) -> fold_left f l s = s.
Proof.
  induction l as [|a l IH]; intros Hf; [reflexivity|].
  cbn [fold_left]. rewrite (Hf a ltac:(left)). apply IH.
  intros a' Hin. apply Hf. right. exact Hin.
Qed.

Lemma count_at_uniform offs G i j (b : bool) :
  (forall x y, if b then cell_at G x y = FILLED else cell_at G x y <> FILLED) ->
  count_at offs G i j = if b then Z.of_nat (length offs) else 0.
Proof.
  intros Hall. unfold count_at.
  rewrite (count_fold_filter (fun d => cell_at G (i + fst d) (j + snd d) = FILLED)).
  assert (length (filter (fun d => cell_at G (i + fst d) (j + snd d) = FILLED) offs) =
          if b then length offs else 0%nat) as ->.
  { induction offs as [|d offs IH]; [destruct b; reflexivity|].
    rewrite filter_cons. specialize (Hall (i + fst d) (j + snd d)).
    destruct b.
    - rewrite decide_True by exact Hall. cbn [length]. rewrite IH. reflexivity.
    - rewrite decide_False by exact Hall. exact IH. }
  destruct b; lia.
Qed.

Lemma cell_at_wrapped G x y :
  valid G -> cell_at G x y = cell_at G (x mod g_width G) (y mod g_height G).
Proof.
  intros (Hw & Hh & _). unfold cell_at. rewrite !Z.mod_mod by lia. reflexivity.
Qed.

(** X12: a valid grid with no [FILLED] cell is left unchanged by [step]
    apart from the generation: the result has the same cells, whatever the
    offsets the math library yields. *)
Theorem step_without_filled (m : libm) (h : gmap positive obj) g L G :
  grid_at h g L G -> valid G ->
  (forall x y, cell_at G x y <> FILLED) ->
  exists g' L' h',
    step m g h = (Ok g', h') /\
    grid_at h' g' L' (bump G) /\
    g_cells (bump G) = g_cells G /\
    g_generation (bump G) = g_generation G + 1.
Proof.
  intros Hat HG Hnone.
  destruct (step_spec m h g L G Hat HG) as (g' & L' & h' & E & _ & Hat' & _).
  assert (step_grid (trig_offsets m) G = bump G) as Estep.
  { unfold step_grid. apply fold_left_fixed. intros i _.
    apply fold_left_fixed. intros j _. unfold rule_at.
    rewrite decide_False by apply Hnone.
    rewrite (count_at_uniform (trig_offsets m) G i j false Hnone). reflexivity. }
  rewrite Estep in Hat'.
  exists g', L', h'. split; [exact E|]. split; [exact Hat'|]. split; reflexivity.
Qed.

Lemma step_without_filled_witness :
  exists g0 L0 h0,
    Grid_init 3 4 ∅ = (Ok g0, h0) /\ grid_at h0 g0 L0 (blank 3 4) /\ valid (blank 3 4) /\
    exists g' L' h',
      step table_libm g0 h0 = (Ok g', h') /\ grid_at h' g' L' (bump (blank 3 4)).
Proof.
  destruct (Grid_init_spec 3 4 ∅) as (g0 & L0 & h0 & E & _ & Hat & _).
  assert (valid (blank 3 4)) as HG by (apply blank_valid; lia).
  exists g0, L0, h0. split; [exact E|]. split; [exact Hat|]. split; [exact HG|].
  destruct (step_without_filled table_libm h0 g0 L0 (blank 3 4) Hat HG)
    as (g' & L' & h' & Es & Hat' & _).
  - intros x y. rewrite blank_cell by lia. exact EMPTY_ne_FILLED.
  - exists g', L', h'. split; [exact Es|exact Hat'].
Defined.

(** X13: a valid grid in which every cell is [FILLED] is entirely [EMPTY]
    after one [step]: on the torus every cell then counts 8 neighbours,
    whatever the dimensions and the offsets. *)
Theorem step_all_filled (m : libm) (h : gmap positive obj) g L G :
  grid_at h g L G -> valid G ->
  (forall x y, cell_at G x y = FILLED) ->
  exists g' L' G' h',
    step m g h = (Ok g', h') /\
    grid_at h' g' L' G' /\
    (forall i j, count_neighbours m g i j h = (Ok 8, h)) /\
    forall x y, Grid_getitem g' (x, y) h' = (Ok EMPTY, h').
Proof.
  intros Hat HG Hall.
  destruct (step_spec m h g L G Hat HG) as (g' & L' & h' & E & _ & Hat' & _).
  destruct (step_grid_frame (trig_offsets m) G HG) as (HG' & Hw & Hh & _).
  exists g', L', (step_grid (trig_offsets m) G), h'.
  split; [exact E|]. split; [exact Hat'|]. split.
  - intros i j. rewrite (count_neighbours_spec m h g L G i j Hat HG).
    rewrite (count_at_uniform (trig_offsets m) G i j true Hall). reflexivity.
  - intros x y. rewrite (getitem_spec h' g' L' _ x y Hat' HG'). f_equal. f_equal.
    rewrite (cell_at_wrapped _ x y HG'). rewrite Hw, Hh.
    pose proof HG as (Hwpos & Hhpos & _).
    rewrite step_grid_cell; [|exact HG|apply wrap_range; exact Hwpos|apply wrap_range; exact Hhpos].
    unfold next_cell. cbv zeta. rewrite decide_True by apply Hall.
    rewrite (count_at_uniform (trig_offsets m) G _ _ true Hall). reflexivity.
Qed.

Lemma step_all_filled_witness :
  grid_at single_heap single_loc single_layout (MkGrid 1 1 [[FILLED]] 0) /\
  valid (MkGrid 1 1 [[FILLED]] 0) /\
  exists g' L' G' h',
    step table_libm single_loc single_heap = (Ok g', h') /\
    grid_at h' g' L' G' /\
    Grid_getitem g' (0, 0) h' = (Ok EMPTY, h').
Proof.
  split; [exact single_grid_at|]. split; [exact (single_valid FILLED 0)|].
  destruct (step_all_filled table_libm single_heap single_loc single_layout
              (MkGrid 1 1 [[FILLED]] 0) single_grid_at (single_valid FILLED 0))
    as (g' & L' & G' & h' & E & Hat' & _ & Hget).
  - intros x y. apply single_cell_at.
  - exists g', L', G', h'. split; [exact E|]. split; [exact Hat'|apply Hget].
Defined.

(** ** Stamping, cell by cell *)

Lemma add_pattern_outside pattern x y (h : gmap positive obj) g L G :
  grid_at h g L G -> valid G ->
  exists h', add_pattern g pattern x y h = (Ok tt, h') /\
             grid_at h' g L (stamp_grid pattern x y G) /\ same_outside L h h'.
Proof.
  intros Hat HG. unfold add_pattern, stamp_grid.
  destruct (for_fold (fun N hk => grid_at hk g L N /\ valid N /\ same_outside L h hk)
              (fun N t => set_cell N (x + fst t) (y + snd t) FILLED) pattern
              (fun t => Grid_setitem g (x + fst t, y + snd t) FILLED)) with (s := G) (h := h)
    as (h' & E & Hat' & _ & Ho).
  - intros N t hk _ (Hatk & HNk & Hok).
    destruct (setitem_outside hk g L N (x + fst t) (y + snd t) FILLED Hatk HNk)
      as (hk' & E & Hat' & Ho').
    exists hk'. split; [exact E|]. split; [exact Hat'|].
    split; [apply set_cell_valid; exact HNk|eapply same_outside_trans; eauto].
  - split; [exact Hat|]. split; [exact HG|apply same_outside_refl].
  - exists h'. auto.
Qed.

Lemma stamp_grid_covers pattern x y G a b :
  valid G ->
  cell_at (stamp_grid pattern x y G) a b =
    if decide (covers G pattern x y a b) then FILLED else cell_at G a b.
Proof.
  unfold stamp_grid, covers. revert G. induction pattern as [|t p IH]; intros G HG.
  - cbn [fold_left]. rewrite decide_False; [reflexivity|].
    intros Hex. apply Exists_nil in Hex. exact Hex.
  - cbn [fold_left].
    rewrite (IH _ (set_cell_valid G (x + fst t) (y + snd t) FILLED HG)).
    cbn [set_cell g_width g_height].
    rewrite (cell_at_set_cell G _ _ FILLED a b HG).
    destruct (decide (Exists _ p)) as [Hp|Hp].
    + rewrite decide_True; [reflexivity|]. apply Exists_cons. right. exact Hp.
    + destruct (decide (a mod g_width G = (x + fst t) mod g_width G /\
                        b mod g_height G = (y + snd t) mod g_height G)) as [[E1 E2]|Hne].
      * rewrite decide_True; [reflexivity|]. apply Exists_cons. left. split; congruence.
      * rewrite decide_False; [reflexivity|]. intros Hex. apply Exists_cons in Hex.
        destruct Hex as [[E1 E2]|Hex]; [|contradiction]. apply Hne. split; congruence.
Qed.

(** X14: what [add_pattern] does to each cell of a valid grid: a cell that
    some offset of the pattern reaches from the anchor, modulo the
    dimensions, is [FILLED] afterwards, and every other cell holds what it
    held. *)
Theorem add_pattern_cells (h : gmap positive obj) g L G pattern (x y : Z) :
  grid_at h g L G -> valid G ->
  exists h' G',
    add_pattern g pattern x y h = (Ok tt, h') /\
    grid_at h' g L G' /\
    forall a b,
      (covers G pattern x y a b -> Grid_getitem g (a, b) h' = (Ok FILLED, h')) /\
      (~ covers G pattern x y a b ->
         exists c, Grid_getitem g (a, b) h = (Ok c, h) /\
                   Grid_getitem g (a, b) h' = (Ok c, h')).
Proof.
  intros Hat HG.
  destruct (add_pattern_spec pattern x y h g L G Hat HG) as (h' & E & Hat' & HG').
  exists h', (stamp_grid pattern x y G). split; [exact E|]. split; [exact Hat'|].
  intros a b. pose proof (getitem_spec h' g L _ a b Hat' HG') as Hget.
  rewrite (stamp_grid_covers pattern x y G a b HG) in Hget.
  split; intros Hc.
  - rewrite decide_True in Hget by exact Hc. exact Hget.
  - rewrite decide_False in Hget by exact Hc.
    exists (cell_at G a b). split; [|exact Hget]. apply (getitem_spec h g L); assumption.
Qed.

Lemma add_pattern_cells_witness :
  grid_at blinker_heap blinker_loc blinker_layout (pattern_grid BLINKER_ROW 0) /\
  valid (pattern_grid BLINKER_ROW 0) /\
  exists h' G',
    add_pattern blinker_loc PATTERN_BLOCK 4 4 blinker_heap = (Ok tt, h') /\
    grid_at h' blinker_loc blinker_layout G' /\
    Grid_getitem blinker_loc (0, 0) h' = (Ok FILLED, h').
Proof.
  split; [exact blinker_grid_at|]. split; [exact (pattern_grid_valid BLINKER_ROW 0)|].
  destruct (add_pattern_cells blinker_heap blinker_loc blinker_layout
              (pattern_grid BLINKER_ROW 0) PATTERN_BLOCK 4 4
              blinker_grid_at (pattern_grid_valid BLINKER_ROW 0)) as (h' & G' & E & Hat' & Hc).
  exists h', G'. split; [exact E|]. split; [exact Hat'|].
  apply (Hc 0 0). unfold covers, PATTERN_BLOCK.
  apply Exists_cons. right. apply Exists_cons. right. apply Exists_cons. right.
  apply Exists_cons. left. split; reflexivity.
Defined.

Lemma stamp_grid_ext p q x y x' y' G :
  valid G ->
  (forall a b, covers G p x y a b <-> covers G q x' y' a b) ->
  stamp_grid p x y G = stamp_grid q x' y' G.
Proof.
  intros HG Hiff.
  pose proof (stamp_grid_valid p x y G HG) as Hp.
  pose proof (stamp_grid_valid q x' y' G HG) as Hq.
  assert (forall r u v, g_width (stamp_grid r u v G) = g_width G /\
                        g_height (stamp_grid r u v G) = g_height G /\
                        g_generation (stamp_grid r u v G) = g_generation G) as Hdims.
  { intros r u v. unfold stamp_grid.
    apply (fold_left_preserves
             (fun N => g_width N = g_width G /\ g_height N = g_height G /\
                       g_generation N = g_generation G)); [|auto].
    intros N t HN. exact HN. }
  destruct (Hdims p x y) as (W1 & H1 & N1). destruct (Hdims q x' y') as (W2 & H2 & N2).
  apply grid_ext; try assumption; try congruence.
  intros a b _ _. rewrite !stamp_grid_covers by exact HG.
  destruct (decide (covers G p x y a b)) as [Hc|Hc].
  - rewrite decide_True; [reflexivity|]. apply Hiff. exact Hc.
  - rewrite decide_False; [reflexivity|]. intros Hc'. apply Hc. apply Hiff. exact Hc'.
Qed.

Lemma add_pattern_ext p q x y x' y' (h : gmap positive obj) g L G :
  grid_at h g L G -> valid G ->
  (forall a b, covers G p x y a b <-> covers G q x' y' a b) ->
  add_pattern g p x y h = add_pattern g q x' y' h.
Proof.
  intros Hat HG Hiff.
  destruct (add_pattern_outside p x y h g L G Hat HG) as (h1 & E1 & Hat1 & Ho1).
  destruct (add_pattern_outside q x' y' h g L G Hat HG) as (h2 & E2 & Hat2 & Ho2).
  rewrite E1, E2. f_equal.
  rewrite (stamp_grid_ext p q x y x' y' G HG Hiff) in Hat1.
  exact (heap_eq h h1 h2 g L _ Hat1 Hat2 Ho1 Ho2).
Qed.

(** X15: on a valid grid the order of the offsets, and their repetition,
    do not matter: two patterns with the same set of offsets leave the same
    heap. *)
Theorem add_pattern_same_offsets (h : gmap positive obj) g L G (p q : list (Z * Z)) (x y : Z) :
  grid_at h g L G -> valid G ->
  (forall t, t ∈ p <-> t ∈ q) ->
  add_pattern g p x y h = add_pattern g q x y h.
Proof.
  intros Hat HG Hsame. apply (add_pattern_ext p q x y x y h g L G Hat HG).
  intros a b. unfold covers. rewrite !Exists_exists.
  split; intros (t & Hin & Ht); exists t; (split; [apply Hsame; exact Hin|exact Ht]).
Qed.

Lemma add_pattern_same_offsets_witness :
  grid_at blinker_heap blinker_loc blinker_layout (pattern_grid BLINKER_ROW 0) /\
  valid (pattern_grid BLINKER_ROW 0) /\
  add_pattern blinker_loc PATTERN_BLOCK 1 1 blinker_heap =
  add_pattern blinker_loc (rev PATTERN_BLOCK ++ PATTERN_BLOCK) 1 1 blinker_heap.
Proof.
  split; [exact blinker_grid_at|]. split; [exact (pattern_grid_valid BLINKER_ROW 0)|].
  apply (add_pattern_same_offsets blinker_heap blinker_loc blinker_layout
           (pattern_grid BLINKER_ROW 0));
    [exact blinker_grid_at|exact (pattern_grid_valid BLINKER_ROW 0)|].
  intros t. rewrite elem_of_app, !list_elem_of_In, <- in_rev. tauto.
Defined.

(** X16: the anchor matters only modulo the dimensions: moving it by whole
    multiples of the width and of the height leaves the same heap. *)
Theorem add_pattern_anchor_period (h : gmap positive obj) g L G pattern (x y k l : Z) :
  grid_at h g L G -> valid G ->
  add_pattern g pattern (x + k * g_width G) (y + l * g_height G) h =
  add_pattern g pattern x y h.
Proof.
  intros Hat HG. apply (add_pattern_ext _ _ _ _ _ _ h g L G Hat HG).
  intros a b. unfold covers. rewrite !Exists_exists.
  assert (forall t : Z * Z,
            (x + k * g_width G + fst t) mod g_width G = (x + fst t) mod g_width G /\
            (y + l * g_height G + snd t) mod g_height G = (y + snd t) mod g_height G) as Hmod.
  { intros t. split.
    - replace (x + k * g_width G + fst t) with (x + fst t + k * g_width G) by lia.
      apply Z_mod_plus_full.
    - replace (y + l * g_height G + snd t) with (y + snd t + l * g_height G) by lia.
      apply Z_mod_plus_full. }
  split; intros (t & Hin & E1 & E2); exists t; (split; [exact Hin|]);
    destruct (Hmod t) as [M1 M2]; split; congruence.
Qed.

Lemma add_pattern_anchor_period_witness :
  grid_at blinker_heap blinker_loc blinker_layout (pattern_grid BLINKER_ROW 0) /\
  valid (pattern_grid BLINKER_ROW 0) /\
  add_pattern blinker_loc PATTERN_GLIDER (1 + 3 * 5) (2 + -2 * 5) blinker_heap =
  add_pattern blinker_loc PATTERN_GLIDER 1 2 blinker_heap.
Proof.
  split; [exact blinker_grid_at|]. split; [exact (pattern_grid_valid BLINKER_ROW 0)|].
  exact (add_pattern_anchor_period blinker_heap blinker_loc blinker_layout
           (pattern_grid BLINKER_ROW 0) PATTERN_GLIDER 1 2 3 (-2)
           blinker_grid_at (pattern_grid_valid BLINKER_ROW 0)).
Defined.

(** ** Rendering *)

Lemma fold_left_append {A} (row : list (list A)) out :
  fold_left (fun out item => out ++ item) row out = out ++ concat row.
Proof.
  revert out. induction row as [|item row IH]; intros out; cbn [fold_left concat].
  - rewrite app_nil_r. reflexivity.
  - rewrite IH, app_assoc. reflexivity.
Qed.

Lemma render_rows_fold (h : gmap positive obj) rs rows out :
  rows_at h rs rows ->
  fold_left (fun out r =>
               match h !! r with
               | Some (ORow row) => out ++ render_row row
               | _ => out
               end) rs out =
  out ++ concat (map render_row rows).
Proof.
  intros Hrows. revert out. induction Hrows as [|r row rs rows Hr _ IH]; intros out.
  - cbn. rewrite app_nil_r. reflexivity.
  - cbn [fold_left map concat]. rewrite Hr, IH, app_assoc. reflexivity.
Qed.

Lemma Grid_str_spec (h : gmap positive obj) g L G :
  grid_at h g L G -> Grid_str g h = (Ok (render G), h).
Proof.
  intros [Hobj Hdata Hrows _]. unfold Grid_str.
  rewrite (bind_ok _ _ _ _ _ (load_grid_ok _ _ _ Hobj)). cbn [width generation data].
  rewrite (bind_ok _ _ _ _ _ (load_rows_ok _ _ _ Hdata)).
  erewrite bind_ok; cycle 1.
  { apply (for_acc_fold (fun out r =>
               match h !! r with
               | Some (ORow row) => out ++ render_row row
               | _ => out
               end)).
    intros out r Hin. apply list_elem_of_lookup in Hin. destruct Hin as [k Ek].
    destruct (Forall2_lookup_l _ _ _ _ _ Hrows Ek) as (row & _ & Hr).
    rewrite (bind_ok _ _ _ _ _ (load_row_ok _ _ _ Hr)). rewrite Hr.
    unfold ret. f_equal. f_equal. rewrite fold_left_append. unfold render_row.
    rewrite <- !app_assoc. reflexivity. }
  rewrite (render_rows_fold h _ _ _ Hrows).
  rewrite (bind_ok _ _ _ _ _ (load_grid_ok _ _ _ Hobj)). cbn [width generation data].
  rewrite (bind_ok _ _ _ _ _ (load_grid_ok _ _ _ Hobj)). cbn [width generation data].
  unfold ret, render, border. f_equal. f_equal.
  change (Z.of_nat (length EMPTY)) with 2. rewrite <- !app_assoc. reflexivity.
Qed.

(** X17: rendering reads only.  On any [Grid] instance, valid or not,
    [Grid.__str__] returns its text without raising and leaves the heap as
    it is; the text depends on the content alone. *)
Theorem Grid_str_read_only (h : gmap positive obj) g L G :
  grid_at h g L G ->
  Grid_str g h = (Ok (render G), h) /\
  forall (h2 : gmap positive obj) g2 L2,
    grid_at h2 g2 L2 G -> fst (Grid_str g2 h2) = fst (Grid_str g h).
Proof.
  intros Hat. split; [exact (Grid_str_spec h g L G Hat)|].
  intros h2 g2 L2 Hat2.
  rewrite (Grid_str_spec h g L G Hat), (Grid_str_spec h2 g2 L2 G Hat2). reflexivity.
Qed.

Lemma Grid_str_read_only_witness :
  grid_at blinker_heap blinker_loc blinker_layout (pattern_grid BLINKER_ROW 0) /\
  Grid_str blinker_loc blinker_heap = (Ok (render (pattern_grid BLINKER_ROW 0)), blinker_heap).
Proof.
  split; [exact blinker_grid_at|].
  exact (proj1 (Grid_str_read_only blinker_heap blinker_loc blinker_layout
                  (pattern_grid BLINKER_ROW 0) blinker_grid_at)).
Defined.

(** Lists of lists of one length. *)
Lemma length_concat_uniform {A} (ls : list (list A)) n :
  Forall (fun l => length l = n) ls -> length (concat ls) = (length ls * n)%nat.
Proof.
  induction 1 as [|l ls Hl _ IH]; [reflexivity|].
  cbn [concat length]. rewrite length_app, IH, Hl. lia.
Qed.

Lemma lookup_concat_uniform {A} (ls : list (list A)) n i j :
  Forall (fun l => length l = n) ls -> (j < n)%nat ->
  concat ls !! (i * n + j)%nat = ls !! i ≫= fun l => l !! j.
Proof.
  intros Hall Hj. revert i. induction Hall as [|l ls Hl _ IH]; intros i.
  - reflexivity.
  - destruct i as [|i]; cbn [concat].
    + rewrite lookup_app_l by lia. reflexivity.
    + rewrite lookup_app_r by lia.
      replace (S i * n + j - length l)%nat with (i * n + j)%nat by lia. apply IH.
Qed.

Lemma length_wall k : length (py_mul WALL k) = Z.to_nat k.
Proof. unfold WALL. rewrite py_mul_singleton. apply length_replicate. Qed.

Lemma two_valued_lengths G :
  two_valued G -> Forall (Forall (fun c : list N => length c = 2%nat)) (g_cells G).
Proof.
  intros H2. eapply Forall_impl; [exact H2|]. intros row Hrow.
  eapply Forall_impl; [exact Hrow|]. intros c [->| ->]; reflexivity.
Qed.

Lemma length_render_row G row :
  valid G -> two_valued G -> row ∈ g_cells G ->
  length (render_row row) = Z.to_nat (2 * g_width G + 5).
Proof.
  intros (Hw & _ & _ & Hrows) H2 Hin.
  rewrite Forall_forall in Hrows. specialize (Hrows row Hin).
  pose proof (two_valued_lengths G H2) as Hlen. rewrite Forall_forall in Hlen.
  specialize (Hlen row Hin).
  unfold render_row, NEWLINE. rewrite !length_app, !length_wall.
  rewrite (length_concat_uniform row 2 Hlen). cbn [length]. lia.
Qed.

Lemma render_rows_uniform G :
  valid G -> two_valued G ->
  Forall (fun l => length l = Z.to_nat (2 * g_width G + 5)) (map render_row (g_cells G)).
Proof.
  intros HG H2. apply Forall_forall. intros l Hin.
  apply list_elem_of_fmap in Hin. destruct Hin as (row & -> & Hrow).
  apply length_render_row; assumption.
Qed.

Lemma render_length (G : Grid) :
  valid G -> two_valued G ->
  Z.of_nat (length (render G)) =
    (g_height G + 2) * (2 * g_width G + 5) + 15 +
    Z.of_nat (length (py_str_int (g_generation G))).
Proof.
  intros HG H2. pose proof HG as (Hw & Hh & Hlen & _).
  unfold render, border, NEWLINE. rewrite !length_app, !length_wall.
  rewrite (length_concat_uniform _ _ (render_rows_uniform G HG H2)).
  rewrite length_map. cbn [length].
  change (length (text Literal.FOOTER)) with 14%nat. nia.
Qed.

(** X18: the size of the text [Grid.__str__] returns for a valid
    two-valued grid: [height + 2] lines of [2 * width + 4] characters and a
    newline, then a blank line and the footer, which is 15 characters and
    the digits of the generation. *)
Theorem Grid_str_length (h : gmap positive obj) g L G :
  grid_at h g L G -> valid G -> two_valued G ->
  exists shown,
    Grid_str g h = (Ok shown, h) /\
    Z.of_nat (length shown) =
      (g_height G + 2) * (2 * g_width G + 5) + 15 +
      Z.of_nat (length (py_str_int (g_generation G))).
Proof.
  intros Hat HG H2. exists (render G).
  split; [exact (Grid_str_spec h g L G Hat)|exact (render_length G HG H2)].
Qed.

Lemma Grid_str_length_witness :
  grid_at blinker_heap blinker_loc blinker_layout (pattern_grid BLINKER_ROW 0) /\
  valid (pattern_grid BLINKER_ROW 0) /\ two_valued (pattern_grid BLINKER_ROW 0) /\
  exists shown,
    Grid_str blinker_loc blinker_heap = (Ok shown, blinker_heap) /\
    Z.of_nat (length shown) = (5 + 2) * (2 * 5 + 5) + 15 + 1.
Proof.
  split; [exact blinker_grid_at|]. split; [exact (pattern_grid_valid BLINKER_ROW 0)|].
  split; [exact (pattern_grid_two_valued BLINKER_ROW 0)|].
  exact (Grid_str_length blinker_heap blinker_loc blinker_layout (pattern_grid BLINKER_ROW 0)
           blinker_grid_at (pattern_grid_valid BLINKER_ROW 0)
           (pattern_grid_two_valued BLINKER_ROW 0)).
Defined.

Lemma render_cell (G : Grid) (x y d : Z) :
  valid G -> two_valued G ->
  0 <= x < g_width G -> 0 <= y < g_height G -> 0 <= d < 2 ->
  render G !! Z.to_nat ((y + 1) * (2 * g_width G + 5) + 2 + 2 * x + d) =
    cell_at G x y !! Z.to_nat d.
Proof.
  intros HG H2 Hx Hy Hd. pose proof HG as (Hw & Hh & Hlen & Hrows).
  destruct (valid_cell G x y HG) as (row & Erow & Hrowlen & Ecell).
  rewrite !Z.mod_small in Erow, Ecell by assumption.
  set (n := Z.to_nat (2 * g_width G + 5)).
  unfold render. rewrite app_assoc.
  assert (length (border G ++ NEWLINE) = n) as Ltop.
  { unfold border, NEWLINE. rewrite length_app, length_wall. cbn [length]. unfold n. lia. }
  rewrite lookup_app_r by (rewrite Ltop; unfold n; nia).
  rewrite Ltop.
  replace (Z.to_nat ((y + 1) * (2 * g_width G + 5) + 2 + 2 * x + d) - n)%nat
    with (Z.to_nat y * n + Z.to_nat (2 + 2 * x + d))%nat by (unfold n; nia).
  pose proof (render_rows_uniform G HG H2) as Huni. fold n in Huni.
  rewrite lookup_app_l.
  2:{ rewrite (length_concat_uniform _ _ Huni), length_map. unfold n. nia. }
  rewrite (lookup_concat_uniform _ n _ _ Huni) by (unfold n; lia).
  rewrite list_lookup_fmap, Erow. cbn.
  unfold render_row.
  rewrite lookup_app_r by (rewrite length_wall; lia).
  rewrite length_wall.
  pose proof (two_valued_lengths G H2) as Hcl. rewrite Forall_forall in Hcl.
  specialize (Hcl row (list_elem_of_lookup_2 _ _ _ Erow)).
  rewrite lookup_app_l.
  2:{ rewrite (length_concat_uniform row 2 Hcl). lia. }
  replace (Z.to_nat (2 + 2 * x + d) - Z.to_nat 2)%nat
    with (Z.to_nat x * 2 + Z.to_nat d)%nat by lia.
  rewrite (lookup_concat_uniform row 2 _ _ Hcl) by lia.
  rewrite Ecell. reflexivity.
Qed.

(** X19: where a cell is shown.  In the text [Grid.__str__] returns for a
    valid two-valued grid, the two characters of the cell that
    [grid[x, y]] reads stand at offsets
    [(y + 1) * (2 * width + 5) + 2 + 2 * x] and the next one: from the text
    alone one reads back every cell. *)
Theorem Grid_str_cell (h : gmap positive obj) g L G (x y d : Z) :
  grid_at h g L G -> valid G -> two_valued G ->
  0 <= x < g_width G -> 0 <= y < g_height G -> 0 <= d < 2 ->
  exists shown c,
    Grid_str g h = (Ok shown, h) /\
    Grid_getitem g (x, y) h = (Ok c, h) /\
    (c = EMPTY \/ c = FILLED) /\
    shown !! Z.to_nat ((y + 1) * (2 * g_width G + 5) + 2 + 2 * x + d) = c !! Z.to_nat d.
Proof.
  intros Hat HG H2 Hx Hy Hd. exists (render G), (cell_at G x y).
  split; [exact (Grid_str_spec h g L G Hat)|].
  split; [exact (getitem_spec h g L G x y Hat HG)|].
  split; [|exact (render_cell G x y d HG H2 Hx Hy Hd)].
  destruct (valid_cell G x y HG) as (row & Erow & _ & Ecell).
  unfold two_valued in H2. rewrite Forall_forall in H2.
  pose proof (H2 row (list_elem_of_lookup_2 _ _ _ Erow)) as Hrow.
  rewrite Forall_forall in Hrow. apply Hrow. exact (list_elem_of_lookup_2 _ _ _ Ecell).
Qed.

Lemma Grid_str_cell_witness :
  grid_at blinker_heap blinker_loc blinker_layout (pattern_grid BLINKER_ROW 0) /\
  valid (pattern_grid BLINKER_ROW 0) /\ two_valued (pattern_grid BLINKER_ROW 0) /\
  exists shown c,
    Grid_str blinker_loc blinker_heap = (Ok shown, blinker_heap) /\
    Grid_getitem blinker_loc (1, 2) blinker_heap = (Ok c, blinker_heap) /\
    shown !! Z.to_nat ((2 + 1) * (2 * 5 + 5) + 2 + 2 * 1 + 0) = c !! Z.to_nat 0.
Proof.
  split; [exact blinker_grid_at|]. split; [exact (pattern_grid_valid BLINKER_ROW 0)|].
  split; [exact (pattern_grid_two_valued BLINKER_ROW 0)|].
  destruct (Grid_str_cell blinker_heap blinker_loc blinker_layout (pattern_grid BLINKER_ROW 0)
              1 2 0 blinker_grid_at (pattern_grid_valid BLINKER_ROW 0)
              (pattern_grid_two_valued BLINKER_ROW 0)
              ltac:(cbn; lia) ltac:(cbn; lia) ltac:(lia))
    as (shown & c & Es & Ec & _ & Hl).
  exists shown, c. split; [exact Es|]. split; [exact Ec|exact Hl].
Defined.

(** ** The driver *)

Lemma generations_frame offs n G :
  valid G ->
  valid (generations offs n G) /\
  g_width (generations offs n G) = g_width G /\
  g_height (generations offs n G) = g_height G /\
  g_generation (generations offs n G) = g_generation G + Z.of_nat n.
Proof.
  revert G. induction n as [|n IH]; intros G HG.
  - cbn [generations]. repeat split; try exact HG; try apply HG. lia.
  - cbn [generations].
    destruct (step_grid_frame offs G HG) as (HG' & Hw & Hh & Hgen).
    destruct (IH _ HG') as (HGn & Hwn & Hhn & Hgenn).
    split; [exact HGn|]. split; [congruence|]. split; [congruence|]. lia.
Qed.

Lemma frames_lookup offs n G k :
  (k < n)%nat -> frames offs n G !! k = Some (render (generations offs k G)).
Proof.
  revert G k. induction n as [|n IH]; intros G k Hk; [lia|].
  destruct k as [|k]; [reflexivity|]. cbn [frames generations]. apply IH. lia.
Qed.

Lemma frames_length offs n G : length (frames offs n G) = n.
Proof. revert G. induction n as [|n IH]; intros G; [reflexivity|]. cbn. rewrite IH. reflexivity. Qed.

(** X20: the loop of the main program, for as many iterations as one
    cares to follow it.  On a valid grid, as long as clearing the screen
    and sleeping return, the first [n] iterations raise nothing; the text
    printed in iteration [k] is the rendering of the grid after [k]
    generations, the grid held after [n] iterations has generation
    [generation + n], and everything that was in the heap at the start is
    still as it was. *)
Theorem main_loop_frames (m : libm) (clear_screen : M unit) (sleep_ms : Z -> M unit)
    (n : nat) (timestep : Z) (printed : list (list N)) (h : gmap positive obj) g L G :
  grid_at h g L G -> valid G ->
  (forall h0, clear_screen h0 = (Ok tt, h0)) ->
  (forall h0, sleep_ms timestep h0 = (Ok tt, h0)) ->
  exists g' L' h',
    main_loop m clear_screen sleep_ms n timestep g printed h =
      (Ok (printed ++ frames (trig_offsets m) n G, g'), h') /\
    h ⊆ h' /\
    grid_at h' g' L' (generations (trig_offsets m) n G) /\
    valid (generations (trig_offsets m) n G) /\
    g_generation (generations (trig_offsets m) n G) = g_generation G + Z.of_nat n /\
    forall k, (k < n)%nat ->
      frames (trig_offsets m) n G !! k = Some (render (generations (trig_offsets m) k G)).
Proof.
  intros Hat HG Hcls Hslp.
  assert (exists g' L' h',
    main_loop m clear_screen sleep_ms n timestep g printed h =
      (Ok (printed ++ frames (trig_offsets m) n G, g'), h') /\
    h ⊆ h' /\ grid_at h' g' L' (generations (trig_offsets m) n G)) as (g' & L' & h' & E & Hsub & Hat').
  { revert printed h g L G Hat HG. induction n as [|n IH]; intros printed h g L G Hat HG.
    - exists g, L, h. cbn [main_loop frames generations]. rewrite app_nil_r.
      split; [reflexivity|]. split; [reflexivity|exact Hat].
    - destruct (step_spec m h g L G Hat HG) as (g1 & L1 & h1 & E1 & Hsub1 & Hat1 & _).
      destruct (step_grid_frame (trig_offsets m) G HG) as (HG1 & _).
      destruct (IH (printed ++ [render G]) h1 g1 L1 _ Hat1 HG1)
        as (g' & L' & h' & E & Hsub & Hat').
      exists g', L', h'. split; [|split; [etrans; eassumption|exact Hat']].
      cbn [main_loop frames generations].
      rewrite (bind_ok _ _ _ _ _ (Hcls h)).
      rewrite (bind_ok _ _ _ _ _ (Grid_str_spec h g L G Hat)).
      rewrite (bind_ok _ _ _ _ _ (Hslp h)).
      rewrite (bind_ok _ _ _ _ _ E1). rewrite E, <- app_assoc. reflexivity. }
  destruct (generations_frame (trig_offsets m) n G HG) as (HGn & _ & _ & Hgen).
  exists g', L', h'. split; [exact E|]. split; [exact Hsub|]. split; [exact Hat'|].
  split; [exact HGn|]. split; [exact Hgen|]. intros k Hk. apply frames_lookup. exact Hk.
Qed.

Lemma main_loop_frames_witness :
  grid_at blinker_heap blinker_loc blinker_layout (pattern_grid BLINKER_ROW 0) /\
  valid (pattern_grid BLINKER_ROW 0) /\
  exists g' L' h',
    main_loop table_libm (ret tt) (fun _ => ret tt) 3 40 blinker_loc [] blinker_heap =
      (Ok ([] ++ frames (trig_offsets table_libm) 3 (pattern_grid BLINKER_ROW 0), g'), h') /\
    grid_at h' g' L' (generations (trig_offsets table_libm) 3 (pattern_grid BLINKER_ROW 0)).
Proof.
  split; [exact blinker_grid_at|]. split; [exact (pattern_grid_valid BLINKER_ROW 0)|].
  destruct (main_loop_frames table_libm (ret tt) (fun _ => ret tt) 3 40 []
              blinker_heap blinker_loc blinker_layout (pattern_grid BLINKER_ROW 0)
              blinker_grid_at (pattern_grid_valid BLINKER_ROW 0)
              (fun h0 => eq_refl) (fun h0 => eq_refl))
    as (g' & L' & h' & E & _ & Hat' & _).
  exists g', L', h'. split; [exact E|exact Hat'].
Defined.

Lemma stamp_grid_dims pattern x y G :
  g_width (stamp_grid pattern x y G) = g_width G /\
  g_height (stamp_grid pattern x y G) = g_height G /\
  g_generation (stamp_grid pattern x y G) = g_generation G.
Proof.
  unfold stamp_grid.
  apply (fold_left_preserves
           (fun N => g_width N = g_width G /\ g_height N = g_height G /\
                     g_generation N = g_generation G)); [|auto].
  intros N t HN. exact HN.
Qed.

Lemma covers_dims G G' pattern x y a b :
  g_width G' = g_width G -> g_height G' = g_height G ->
  covers G' pattern x y a b <-> covers G pattern x y a b.
Proof. intros Hw Hh. unfold covers. rewrite Hw, Hh. reflexivity. Qed.

(** X21: the seeding of the main program on positive dimensions never
    fails, however small the grid: anchors and offsets beyond the grid wrap.
    The grid it returns has generation 0; the cells reached by one of the
    three stamps are [FILLED] and all the others [EMPTY]. *)
Theorem main_seed_cells (w hh : Z) (h : gmap positive obj) :
  0 < w -> 0 < hh ->
  exists g L G h',
    main_seed w hh h = (Ok g, h') /\
    grid_at h' g L G /\ valid G /\
    g_width G = w /\ g_height G = hh /\ g_generation G = 0 /\
    forall a b,
      let seeded := covers (blank w hh) PATTERN_BLOCK 5 7 a b \/
                    covers (blank w hh) PATTERN_BLOCK 25 7 a b \/
                    covers (blank w hh) PATTERN_QUEEN 10 4 a b in
      (seeded -> Grid_getitem g (a, b) h' = (Ok FILLED, h')) /\
      (~ seeded -> Grid_getitem g (a, b) h' = (Ok EMPTY, h')).
Proof.
  intros Hw Hh.
  destruct (Grid_init_spec w hh h) as (g & L & h0 & E0 & _ & Hat0 & _).
  pose proof (blank_valid w hh Hw Hh) as HG0.
  set (G0 := blank w hh) in *.
  destruct (add_pattern_spec PATTERN_BLOCK 5 7 h0 g L G0 Hat0 HG0) as (h1 & E1 & Hat1 & HG1).
  set (G1 := stamp_grid PATTERN_BLOCK 5 7 G0) in *.
  destruct (add_pattern_spec PATTERN_BLOCK 25 7 h1 g L G1 Hat1 HG1) as (h2 & E2 & Hat2 & HG2).
  set (G2 := stamp_grid PATTERN_BLOCK 25 7 G1) in *.
  destruct (add_pattern_spec PATTERN_QUEEN 10 4 h2 g L G2 Hat2 HG2) as (h3 & E3 & Hat3 & HG3).
  set (G3 := stamp_grid PATTERN_QUEEN 10 4 G2) in *.
  destruct (stamp_grid_dims PATTERN_BLOCK 5 7 G0) as (W1 & H1 & N1). fold G1 in W1, H1, N1.
  destruct (stamp_grid_dims PATTERN_BLOCK 25 7 G1) as (W2 & H2 & N2). fold G2 in W2, H2, N2.
  destruct (stamp_grid_dims PATTERN_QUEEN 10 4 G2) as (W3 & H3 & N3). fold G3 in W3, H3, N3.
  exists g, L, G3, h3. split.
  { unfold main_seed. rewrite (bind_ok _ _ _ _ _ E0), (bind_ok _ _ _ _ _ E1).
    rewrite (bind_ok _ _ _ _ _ E2), (bind_ok _ _ _ _ _ E3). reflexivity. }
  split; [exact Hat3|]. split; [exact HG3|].
  split; [rewrite W3, W2, W1; reflexivity|].
  split; [rewrite H3, H2, H1; reflexivity|].
  split; [rewrite N3, N2, N1; reflexivity|].
  intros a b seeded.
  rewrite (getitem_spec h3 g L G3 a b Hat3 HG3).
  pose proof (stamp_grid_covers PATTERN_QUEEN 10 4 G2 a b HG2) as K3. fold G3 in K3.
  pose proof (stamp_grid_covers PATTERN_BLOCK 25 7 G1 a b HG1) as K2. fold G2 in K2.
  pose proof (stamp_grid_covers PATTERN_BLOCK 5 7 G0 a b HG0) as K1. fold G1 in K1.
  pose proof (blank_cell w hh a b Hw Hh) as K0. fold G0 in K0.
  rewrite K3, K2, K1, K0.
  pose proof (covers_dims G0 G2 PATTERN_QUEEN 10 4 a b ltac:(congruence) ltac:(congruence)) as C3.
  pose proof (covers_dims G0 G1 PATTERN_BLOCK 25 7 a b W1 H1) as C2.
  subst seeded. cbv beta.
  destruct (decide (covers G2 PATTERN_QUEEN 10 4 a b)) as [D3|D3];
    [|destruct (decide (covers G1 PATTERN_BLOCK 25 7 a b)) as [D2|D2];
      [|destruct (decide (covers G0 PATTERN_BLOCK 5 7 a b)) as [D1|D1]]];
    (split; intros Hs); try reflexivity; exfalso; tauto.
Qed.

Lemma main_seed_cells_witness :
  0 < 3 /\ 0 < 2 /\
  exists g L G h',
    main_seed 3 2 ∅ = (Ok g, h') /\ grid_at h' g L G /\ valid G /\ g_generation G = 0.
Proof.
  split; [lia|]. split; [lia|].
  destruct (main_seed_cells 3 2 ∅ ltac:(lia) ltac:(lia))
    as (g & L & G & h' & E & Hat & HG & _ & _ & Hgen & _).
  exists g, L, G, h'. split; [exact E|]. split; [exact Hat|]. split; [exact HG|exact Hgen].
Defined.

(** ** The console *)

Section ConsoleFacts.

Variable int_of_str : list N -> option Z.

Lemma int_input_loop_spec error rejected good z rest out :
  Forall (fun line => int_of_str line = None) rejected ->
  int_of_str good = Some z ->
  int_input_loop int_of_str error (rejected ++ good :: rest) out =
    Some (z, Console rest (out ++ concat (map (fun _ => error ++ SPACE) rejected))).
Proof.
  intros Hrej Hgood. revert out. induction Hrej as [|line rejected Hline _ IH]; intros out.
  - cbn. rewrite Hgood, app_nil_r. reflexivity.
  - cbn [app int_input_loop map concat]. rewrite Hline, IH, <- !app_assoc. reflexivity.
Qed.

Lemma int_input_loop_none error lines out :
  Forall (fun line => int_of_str line = None) lines ->
  int_input_loop int_of_str error lines out = None.
Proof.
  intros Hrej. revert out. induction Hrej as [|line lines Hline _ IH]; intros out.
  - reflexivity.
  - cbn [int_input_loop]. rewrite Hline. apply IH.
Qed.

Lemma int_input_loop_omap error lines out :
  match int_input_loop int_of_str error lines out with
  | Some (z, c) =>
      omap int_of_str lines = z :: omap int_of_str (stdin c)
  | None => omap int_of_str lines = []
  end.
Proof.
  revert out. induction lines as [|line lines IH]; intros out; [reflexivity|].
  simpl. destruct (int_of_str line) as [z|] eqn:E.
  - reflexivity.
  - apply IH.
Qed.

End ConsoleFacts.

(** X22: [int_input] returns the first line of input that [int] accepts.
    The lines before it are consumed, the lines after it are left unread;
    the prompt is printed once and the error message once for every
    rejected line, each followed by a space. *)
Theorem int_input_first_integer (int_of_str : list N -> option Z)
    (prompt error : list N) (c : console) (rejected : list (list N)) (good : list N)
    (z : Z) (rest : list (list N)) :
  stdin c = rejected ++ good :: rest ->
  Forall (fun line => int_of_str line = None) rejected ->
  int_of_str good = Some z ->
  int_input int_of_str prompt error c =
    Some (z, Console rest
               (stdout c ++ prompt ++ SPACE ++
                concat (map (fun _ => error ++ SPACE) rejected))).
Proof.
  intros Hin Hrej Hgood. unfold int_input. rewrite Hin.
  rewrite (int_input_loop_spec int_of_str error rejected good z rest _ Hrej Hgood).
  rewrite <- !app_assoc. reflexivity.
Qed.

Lemma int_input_first_integer_witness :
  int_input digits_only [87%N] [69%N] (Console [[120%N]; []; [52%N; 50%N]; [55%N]] []) =
    Some (42, Console [[55%N]] [87%N; 32%N; 69%N; 32%N; 69%N; 32%N]).
Proof.
  apply (int_input_first_integer digits_only [87%N] [69%N]
           (Console [[120%N]; []; [52%N; 50%N]; [55%N]] [])
           [[120%N]; []] [52%N; 50%N] 42 [[55%N]]).
  - reflexivity.
  - repeat constructor.
  - reflexivity.
Defined.

Lemma get_settings_omap (int_of_str : list N -> option Z) (c : console) :
  match get_settings int_of_str c with
  | Some (s, c') =>
      omap int_of_str (stdin c) =
        s_width s :: s_height s :: s_timestep s :: omap int_of_str (stdin c')
  | None => (length (omap int_of_str (stdin c)) < 3)%nat
  end.
Proof.
  unfold get_settings, int_input.
  pose proof (int_input_loop_omap int_of_str DEFAULT_ERROR (stdin c)
                (stdout c ++ text Literal.WIDTH ++ SPACE)) as H1.
  destruct (int_input_loop _ _ (stdin c) _) as [[w c1]|]; [|rewrite H1; cbn; lia].
  pose proof (int_input_loop_omap int_of_str DEFAULT_ERROR (stdin c1)
                (stdout c1 ++ text Literal.HEIGHT ++ SPACE)) as H2.
  destruct (int_input_loop _ _ (stdin c1) _) as [[hh c2]|]; [|rewrite H1, H2; cbn; lia].
  pose proof (int_input_loop_omap int_of_str DEFAULT_ERROR (stdin c2)
                (stdout c2 ++ text Literal.TIMESTEP ++ SPACE)) as H3.
  destruct (int_input_loop _ _ (stdin c2) _) as [[t c3]|]; [|rewrite H1, H2, H3; cbn; lia].
  cbn [s_width s_height s_timestep]. rewrite H1, H2, H3. reflexivity.
Qed.

(** X23: [get_settings] returns when, and only when, the input holds at
    least three lines that [int] accepts.  The first three of them, in
    order, are the width, the height and the time step; the rejected lines
    before each are consumed, the input left is exactly what follows the
    third accepted line, and the output is the three prompts, each followed
    by one error message per line rejected at it. *)
Theorem get_settings_first_three (int_of_str : list N -> option Z) (c : console) :
  (forall r1 l1 w r2 l2 hh r3 l3 t rest,
     stdin c = r1 ++ l1 :: r2 ++ l2 :: r3 ++ l3 :: rest ->
     Forall (fun line => int_of_str line = None) (r1 ++ r2 ++ r3) ->
     int_of_str l1 = Some w -> int_of_str l2 = Some hh -> int_of_str l3 = Some t ->
     get_settings int_of_str c =
       Some (MkSettings w hh t,
             Console rest
               (stdout c ++
                text Literal.WIDTH ++ SPACE ++
                concat (map (fun _ => DEFAULT_ERROR ++ SPACE) r1) ++
                text Literal.HEIGHT ++ SPACE ++
                concat (map (fun _ => DEFAULT_ERROR ++ SPACE) r2) ++
                text Literal.TIMESTEP ++ SPACE ++
                concat (map (fun _ => DEFAULT_ERROR ++ SPACE) r3)))) /\
  ((length (omap int_of_str (stdin c)) < 3)%nat <-> get_settings int_of_str c = None).
Proof.
  split.
  - intros r1 l1 w r2 l2 hh r3 l3 t rest Hin Hrej E1 E2 E3.
    apply Forall_app in Hrej. destruct Hrej as [R1 Hrej].
    apply Forall_app in Hrej. destruct Hrej as [R2 R3].
    unfold get_settings, int_input. rewrite Hin.
    rewrite (int_input_loop_spec int_of_str DEFAULT_ERROR r1 l1 w _ _ R1 E1).
    cbn [stdin stdout].
    rewrite (int_input_loop_spec int_of_str DEFAULT_ERROR r2 l2 hh _ _ R2 E2).
    cbn [stdin stdout].
    rewrite (int_input_loop_spec int_of_str DEFAULT_ERROR r3 l3 t _ _ R3 E3).
    rewrite <- !app_assoc. reflexivity.
  - pose proof (get_settings_omap int_of_str c) as H.
    destruct (get_settings int_of_str c) as [[s c']|].
    + rewrite H. cbn [length]. split; [lia|discriminate].
    + split; [reflexivity|intros _; exact H].
Qed.

Lemma get_settings_first_three_witness :
  get_settings digits_only
    (Console [[53%N]; [121%N]; [52%N]; [120%N]; [121%N]; [52%N; 48%N]; [121%N]; [55%N]] []) =
  Some (MkSettings 5 4 40,
        Console [[121%N]; [55%N]]
          (text Literal.WIDTH ++ SPACE ++
           text Literal.HEIGHT ++ SPACE ++ (DEFAULT_ERROR ++ SPACE) ++
           text Literal.TIMESTEP ++ SPACE ++ (DEFAULT_ERROR ++ SPACE) ++ (DEFAULT_ERROR ++ SPACE))).
Proof.
  rewrite (proj1 (get_settings_first_three digits_only
             (Console [[53%N]; [121%N]; [52%N]; [120%N]; [121%N]; [52%N; 48%N]; [121%N]; [55%N]] []))
             [] [53%N] 5 [[121%N]] [52%N] 4 [[120%N]; [121%N]] [52%N; 48%N] 40 [[121%N]; [55%N]]
             eq_refl ltac:(repeat constructor) eq_refl eq_refl eq_refl).
  reflexivity.
Defined.
